(** * PyMPlayer, [mplayer/core.py]: command channel and output broadcaster

    A shallow embedding of the classes [Step], [Player] and [_FileWrapper].
    The module is Python 2 code ([subprocess.mswindows], [map] results used
    as lists, a PyGTK front end), and the embedding follows Python 2
    semantics where the two major versions differ.

    Conventions of the embedding:
    - Python values are the inductive [value]; the five classes of the
      introspection type map are [pytype].
    - Text is [string], one character for each byte.  [decode()] and
      [encode()] are called without a codec, which in Python 2 is ASCII:
      both hand back the text they were given when every byte is below
      128 and raise [UnicodeDecodeError] otherwise.
    - Exceptions are values of [exn]; a call that blocks forever is the
      outcome [Hang].
    - File objects live in a store ([files]) and are referred to by address,
      because [Player._proc.stdout] and [Player._stdout._file] are one and
      the same object.
    - Subscriber callbacks are code outside the module: the embedding
      records each invocation in the log [calls] and takes the callback to
      return normally and to leave the list of subscribers as it is. *)

From Stdlib Require Import ZArith String Ascii List Bool Lia DecimalString.
From Stdlib Require Import DecimalPos DecimalZ.
From stdpp Require Import base decidable option list gmap strings.

Local Open Scope string_scope.
Local Open Scope Z_scope.

(** ** Text primitives of the Python runtime used by the module *)

Module Text.

Definition NL : string := String (ascii_of_nat 10) EmptyString.
Definition SP : string := String (ascii_of_nat 32) EmptyString.

(** [s.startswith(p)] *)
Fixpoint startswith (s p : string) {struct p} : bool :=
  match p with
  | EmptyString => true
  | String a p' =>
      match s with
      | EmptyString => false
      | String b s' => if Ascii.eqb a b then startswith s' p' else false
      end
  end.

(** The characters [unicode.rstrip()] removes, restricted to ASCII:
    TAB, LF, VT, FF, CR, FS, GS, RS, US and the space. *)
Definition isspace (c : ascii) : bool :=
  let n := nat_of_ascii c in
  (((9 <=? n) && (n <=? 13)) || ((28 <=? n) && (n <=? 32)))%nat.

(** The two characters [strip] is asked to remove at line 355: the
    single quote and the double quote. *)
Definition isquote (c : ascii) : bool :=
  Ascii.eqb c (ascii_of_nat 39) || Ascii.eqb c (ascii_of_nat 34).

Fixpoint lstrip (drop : ascii -> bool) (s : string) : string :=
  match s with
  | EmptyString => EmptyString
  | String c s' => if drop c then lstrip drop s' else s
  end.

Fixpoint rstrip (drop : ascii -> bool) (s : string) : string :=
  match s with
  | EmptyString => EmptyString
  | String c s' =>
      match rstrip drop s' with
      | EmptyString => if drop c then EmptyString else String c EmptyString
      | r => String c r
      end
  end.

Definition strip (drop : ascii -> bool) (s : string) : string :=
  rstrip drop (lstrip drop s).

(** [s.partition(sep)[2]]: what follows the first [sep], or the empty
    string when [sep] does not occur. *)
Fixpoint after_first (sep : ascii) (s : string) : string :=
  match s with
  | EmptyString => EmptyString
  | String c s' => if Ascii.eqb c sep then s' else after_first sep s'
  end.

(** [' '.join(xs)] *)
Definition join (xs : list string) : string := String.concat SP xs.

(** [str(n)] for an integer. *)
Definition str_int (n : Z) : string := NilZero.string_of_int (Z.to_int n).

(** [not s] for a string. *)
Definition is_empty (s : string) : bool :=
  match s with EmptyString => true | _ => false end.

(** A byte of the ASCII range. *)
Definition isascii (c : ascii) : bool := (nat_of_ascii c <? 128)%nat.

(** Every byte of [s] is in the ASCII range. *)
Fixpoint is_ascii (s : string) : bool :=
  match s with
  | EmptyString => true
  | String c s' => isascii c && is_ascii s'
  end.

(** The position of the first byte of [s] outside the ASCII range. *)
Fixpoint first_non_ascii (s : string) : nat :=
  match s with
  | EmptyString => 0
  | String c s' => if isascii c then S (first_non_ascii s') else 0
  end.

End Text.
Import Text.

(** ** Values, classes and exceptions *)

(** The classes the introspection type map can produce
    ([Player.introspect], lines 275-278). *)
Inductive pytype := Tbool | Tint | Tfloat | Tstr | Tdict.

(** [t.__name__] *)
Definition type_name (t : pytype) : string :=
  match t with
  | Tbool => "bool" | Tint => "int" | Tfloat => "float"
  | Tstr => "str" | Tdict => "dict"
  end.

(** [UnicodeDecodeError] carries the text that could not be decoded and
    the position of the offending byte. *)
Inductive exn :=
| TypeError (msg : string)
| ValueError (msg : string)
| UnicodeDecodeError (text : string) (start : nat).

(** [s.decode()] on the bytes read from a pipe.  The default codec of
    Python 2 is ASCII. *)
Definition decode (s : string) : exn + string :=
  if is_ascii s then inr s
  else inl (UnicodeDecodeError s (first_non_ascii s)).

(** [s.encode()] on a byte string: Python 2 first decodes the string with
    the default codec, then encodes the result with it. *)
Definition encode (s : string) : exn + string := decode s.

(** How a call ends: it returns, it raises, or it never comes back. *)
Inductive outcome (A : Type) :=
| Return (a : A)
| Raise (e : exn)
| Hang.
Arguments Return {A} a.
Arguments Raise {A} e.
Arguments Hang {A}.

(** What lies outside the module and outside this embedding: binary
    floating point (its order and its printed form) and the standard
    library's [shlex.split], which raises [ValueError] on unbalanced
    quotes. *)
Class Runtime := {
  float : Type;
  float_lt : float -> float -> bool;
  float_str : float -> string;
  shlex_split : string -> exn + list string
}.

Section Core.

Context {RT : Runtime}.

Inductive value :=
| VNone
| VBool (b : bool)
| VInt (n : Z)
| VFloat (x : float)
| VStr (s : string)
| VDict (text : string)      (* a dict, with its printed form *)
| VObj (text : string).     (* an instance of any other class, with its printed form *)

(** [int(b)] for a boolean. *)
Definition int_of_bool (b : bool) : Z := if b then 1 else 0.

(** [str(v)] *)
Definition str (v : value) : string :=
  match v with
  | VNone => "None"
  | VBool true => "True"
  | VBool false => "False"
  | VInt n => str_int n
  | VFloat x => float_str x
  | VStr s => s
  | VDict t => t
  | VObj t => t
  end.

(** [isinstance(v, t)]; [bool] is a subclass of [int]. *)
Definition isinstance (v : value) (t : pytype) : bool :=
  match v, t with
  | VBool _, Tbool => true
  | VBool _, Tint => true
  | VInt _, Tint => true
  | VFloat _, Tfloat => true
  | VStr _, Tstr => true
  | VDict _, Tdict => true
  | _, _ => false
  end.

Definition is_None (v : value) : bool :=
  match v with VNone => true | _ => false end.

(** [a < b] on the values property bounds are made of.  A bound is built
    by [ptype(token)] (lines 212-213) and the value has passed
    [isinstance(value, ptype)] before it is compared, so both sides are
    integers (a boolean counting as 0 or 1), both floats, or both strings.
    CPython 2 has an order for every other pair as well; it is never
    consulted here and the embedding answers [false] for it. *)
Definition py_lt (a b : value) : bool :=
  match a, b with
  | VBool x, VBool y => int_of_bool x <? int_of_bool y
  | VBool x, VInt y => int_of_bool x <? y
  | VInt x, VBool y => x <? int_of_bool y
  | VInt x, VInt y => x <? y
  | VFloat x, VFloat y => float_lt x y
  | VStr x, VStr y => String.ltb x y
  | _, _ => false
  end.

(** [a > b] is [b < a]. *)
Definition py_gt (a b : value) : bool := py_lt b a.

(** ** class Step (lines 42-58) *)

Record Step := mkStep { _val : value; _dir : value }.

(** [Step.__init__(value, direction)] *)
Definition Step_init (val dir : value) : exn + Step :=
  if negb (isinstance val Tint || isinstance val Tfloat) then
    inl (TypeError "expected int or float for value")
  else if negb (isinstance dir Tint) then
    inl (TypeError "expected int for direction")
  else inr (mkStep val dir).

(** ** class _FileWrapper (lines 361-414) *)

(** A callback is known by its identity; [hook] may be handed any object. *)
Abbreviation callback := nat.

Inductive object :=
| Callable (f : callback)
| NotCallable (cls : string).

(** Addresses of file objects in the store. *)
Abbreviation file := nat.

Record FileWrapper := mkFileWrapper {
  _file : option file;
  _lock : bool;                       (* [self._lock.locked()] *)
  _subscribers : list callback
}.

(** What the module acts upon besides its own objects: the lines each file
    object still has to yield, and the callback invocations made so far,
    oldest first. *)
Record World := mkWorld {
  files : gmap nat (list string);
  calls : list (callback * string)
}.

(** [f.readline()]: the next line, or the empty string at end of file. *)
Definition readline (f : file) (w : World) : string * World :=
  match files w !! f with
  | Some (l :: rest) => (l, mkWorld (<[f := rest]> (files w)) (calls w))
  | _ => (EmptyString, w)
  end.

(** [subscriber(data)] *)
Definition call (data : string) (w : World) (subscriber : callback) : World :=
  mkWorld (files w) (calls w ++ [(subscriber, data)]).

(** [_FileWrapper.publish] (lines 377-397).  The line is read before it
    is decoded: when [decode()] raises, the line is gone from the stream
    and no subscriber has been called. *)
Definition publish (self : FileWrapper) (w : World)
  : outcome bool * World :=
  if _lock self || bool_decide (_file self = None) then (Return true, w)
  else
    match _file self with
    | None => (Return true, w)
    | Some f =>
        let '(raw, w) := readline f w in
        match decode raw with
        | inl e => (Raise e, w)
        | inr text =>
            let data := rstrip isspace text in
            if is_empty data then (Return true, w)
            else (Return true, fold_left (call data) (_subscribers self) w)
        end
    end.

(** [_FileWrapper.hook] (lines 399-407).  Calling an object that has no
    [__call__] is how the method raises its [TypeError]. *)
Definition hook (self : FileWrapper) (subscriber : object)
  : outcome bool * FileWrapper :=
  match subscriber with
  | NotCallable cls =>
      (Raise (TypeError ("'" +:+ cls +:+ "' object is not callable")), self)
  | Callable f =>
      if negb (bool_decide (f ∈ _subscribers self)) then
        (Return true,
         mkFileWrapper (_file self) (_lock self) (_subscribers self ++ [f]))
      else (Return false, self)
  end.

(** [list.remove(x)]: drops the first occurrence. *)
Fixpoint list_remove (x : callback) (l : list callback) : list callback :=
  match l with
  | [] => []
  | y :: l' => if decide (x = y) then l' else y :: list_remove x l'
  end.

(** [_FileWrapper.unhook] (lines 409-414) *)
Definition unhook (self : FileWrapper) (subscriber : object)
  : bool * FileWrapper :=
  match subscriber with
  | Callable f =>
      if bool_decide (f ∈ _subscribers self) then
        (true,
         mkFileWrapper (_file self) (_lock self)
                       (list_remove f (_subscribers self)))
      else (false, self)
  | NotCallable _ => (false, self)
  end.

(** [_FileWrapper.__init__] (lines 367-371), without the spawn handle. *)
Definition FileWrapper_init : FileWrapper := mkFileWrapper None false [].

(** ** class Player (lines 61-358) *)

(** The [subprocess.Popen] object: [returncode] is what [poll()] answers
    ([None] while the child runs), [stdin] collects what was written to the
    child, [stdout] and [stderr] are [None] unless they are pipes. *)
Record Popen := mkPopen {
  returncode : option Z;
  stdin : list string;
  stdout : option file;
  stderr : option file
}.

(** [command_prefix] is the class attribute read through
    [self.__class__]. *)
Record Player := mkPlayer {
  command_prefix : string;
  _args : list string;
  _stdout : FileWrapper;
  _stderr : FileWrapper;
  _proc : option Popen
}.

Definition fixed_args : list string :=
  ["-slave"; "-idle"; "-quiet"; "-input"; "nodefault-bindings";
   "-noconfig"; "all"].

(** What may be assigned to [Player.args]: a string or a sequence. *)
Inductive args_value :=
| ArgsStr (s : string)
| ArgsSeq (xs : list value).

(** [Player.args] getter (lines 97-100) *)
Definition args (self : Player) : list string := drop 7 (_args self).

(** [Player.args] setter (lines 102-113).  [shlex.split] fails with
    [AttributeError] on a sequence, which sends the setter to
    [map(str, args)]; any other exception leaves the setter. *)
Definition set_args (self : Player) (new : args_value)
  : outcome unit * Player :=
  let store a :=
    mkPlayer (command_prefix self) (fixed_args ++ a)
             (_stdout self) (_stderr self) (_proc self) in
  match new with
  | ArgsStr s =>
      match shlex_split s with
      | inr a => (Return tt, store a)
      | inl e => (Raise e, self)
      end
  | ArgsSeq xs => (Return tt, store (map str xs))
  end.

(** [Player.is_alive] (lines 307-315) *)
Definition is_alive (self : Player) : bool :=
  match _proc self with
  | Some p => bool_decide (returncode p = None)
  | None => false
  end.

(** [self._proc.stdin.write(command)] followed by [flush()] *)
Definition stdin_write (self : Player) (command : string) : Player :=
  match _proc self with
  | Some p =>
      mkPlayer (command_prefix self) (_args self) (_stdout self)
               (_stderr self)
               (Some (mkPopen (returncode p) (stdin p ++ [command])
                              (stdout p) (stderr p)))
  | None => self
  end.

(** Acquiring and releasing [self._stdout._lock]. *)
Definition set_stdout_lock (self : Player) (held : bool) : Player :=
  mkPlayer (command_prefix self) (_args self)
           (mkFileWrapper (_file (_stdout self)) held
                          (_subscribers (_stdout self)))
           (_stderr self) (_proc self).

(** What has been written to the child so far. *)
Definition sent (self : Player) : list string :=
  from_option stdin [] (_proc self).

(** Line 326: the arguments that remain once [None] is discarded. *)
Definition remaining (args : list value) : list value :=
  filter (fun x => is_None x = false) args.

(** [map(isinstance, args, types)] of Python 2, where [map] returns a list
    and extends the shorter sequence with [None]: an argument beyond the
    last type meets [isinstance(x, None)], which raises. *)
Fixpoint map_isinstance (args : list value) (types : list pytype)
  : exn + list bool :=
  match args, types with
  | [], _ => inr []
  | a :: args', t :: types' =>
      match map_isinstance args' types' with
      | inr r => inr (isinstance a t :: r)
      | inl e => inl e
      end
  | _ :: _, [] =>
      inl (TypeError
        "isinstance() arg 2 must be a class, type, or tuple of classes and types")
  end.

(** [result.index(False)] *)
Fixpoint index_False (result : list bool) : nat :=
  match result with
  | [] => 0
  | b :: r => if b then S (index_False r) else 0
  end%nat.

(** Lines 327-331.  [types[i]] exists whenever it is read, since [result]
    is no longer than [types]. *)
Definition check_types (args : list value) (types : list pytype)
  : option exn :=
  match types with
  | [] => None
  | _ =>
      match map_isinstance args (take (length args) types) with
      | inl e => Some e
      | inr result =>
          if negb (forallb id result) then
            let i := index_False result in
            Some (TypeError
              ("expected " +:+ from_option type_name EmptyString (types !! i)
               +:+ " for argument " +:+ str_int (Z.of_nat i + 1)))
          else None
      end
  end.

(** The lambda of line 333. *)
Definition render (x : value) : string :=
  match x with
  | VBool b => str_int (int_of_bool b)
  | _ => str x
  end.

(** Lines 332-337: the line sent to the child, or the exception of
    [encode()]. *)
Definition build_command (prefix name : string) (args : list value)
  : exn + string :=
  let command := ([prefix; name] ++ map render args ++ [NL])%list in
  let command :=
    if bool_decide (name ∈ ["quit"; "pause"; "stop"]) then tail command
    else command in
  encode (join command).

(** The test that ends the loop (line 353). *)
Definition is_answer (key res : string) : bool :=
  startswith res key || startswith res "ANS_ERROR".

(** How the loop of lines 351-354 ends: on an answer, on a line that
    [decode()] refuses, or not at all.  [rest] is what the child still has
    to yield afterwards. *)
Inductive reading :=
| Answered (res : string) (rest : list string)
| Undecodable (e : exn) (rest : list string)
| Starved.

(** The loop of lines 351-354 over the lines the child still has to yield.
    When the lines run out [readline()] answers the empty string, which
    decodes and starts with neither key, for ever: the loop does not end
    ([Starved]). *)
Fixpoint read_answer (key : string) (lines : list string) : reading :=
  match lines with
  | [] => Starved
  | l :: rest =>
      match decode l with
      | inl e => Undecodable e rest
      | inr text =>
          let res := rstrip isspace text in
          if is_answer key res then Answered res rest
          else read_answer key rest
      end
  end.

(** Lines 355-357. *)
Definition answer (res : string) : option string :=
  let ans := strip isquote (after_first "=" res) in
  if bool_decide (ans ∈ ["(null)"; "PROPERTY_UNAVAILABLE"; "PROPERTY_UNKNOWN"])
  then None else Some ans.

Definition set_file (f : file) (lines : list string) (w : World) : World :=
  mkWorld (<[f := lines]> (files w)) (calls w).

(** [Player._command(name, *args, types=..., prefix=...)] (lines 317-358).
    [types] is [()] and [prefix] is [None] when the keyword is not given.
    A lock that is already held makes [with self._stdout._lock] wait.
    An exception of [encode()] (line 337) leaves before anything is
    written; an exception of [decode()] (line 352) leaves the [with]
    block, which releases the lock, after the command has been written
    and the lines up to the offending one have been read. *)
Definition _command (self : Player) (w : World) (name : string)
    (args : list value) (types : list pytype) (prefix : option string)
  : outcome (option string) * Player * World :=
  if negb (is_alive self) || is_empty name then (Return None, self, w)
  else
    let prefix := default (command_prefix self) prefix in
    let args := remaining args in
    match check_types args types with
    | Some e => (Raise e, self, w)
    | None =>
        match build_command prefix name args with
        | inl e => (Raise e, self, w)
        | inr command =>
            if negb (startswith name "get_") then
              (Return None, stdin_write self command, w)
            else
              match _proc self ≫= stdout with
              | None => (Return None, self, w)
              | Some out =>
                  let key :=
                    "ANS_" +:+ from_option str EmptyString (head args) in
                  if _lock (_stdout self) then (Hang, self, w)
                  else
                    let self :=
                      stdin_write (set_stdout_lock self true) command in
                    match read_answer key (default [] (files w !! out)) with
                    | Starved => (Hang, self, set_file out [] w)
                    | Undecodable e rest =>
                        (Raise e, set_stdout_lock self false,
                         set_file out rest w)
                    | Answered res rest =>
                        (Return (answer res), set_stdout_lock self false,
                         set_file out rest w)
                    end
              end
        end
    end.

(** What a property setter is given: a plain value or a [Step]. *)
Inductive assigned :=
| Plain (v : value)
| Stepped (s : Step).

(** The result of [_command] is dropped by the setters. *)
Definition discard {A} (r : outcome A * Player * World)
  : outcome unit * Player * World :=
  match r with
  | (Return _, p, w) => (Return tt, p, w)
  | (Raise e, p, w) => (Raise e, p, w)
  | (Hang, p, w) => (Hang, p, w)
  end.

(** ['{0}'.format(bound)] for a bound that may be [None]. *)
Definition format_bound (bound : option value) : string :=
  from_option str "None" bound.

(** [Player._propset] (lines 142-152) *)
Definition _propset (self : Player) (w : World) (val : assigned)
    (pname : string) (ptype : pytype) (pmin pmax : option value)
  : outcome unit * Player * World :=
  match val with
  | Plain v =>
      if negb (isinstance v ptype) then
        (Raise (TypeError ("expected " +:+ type_name ptype)), self, w)
      else if match pmin with Some lo => py_lt v lo | None => false end then
        (Raise (ValueError ("value must be at least " +:+ format_bound pmin)),
         self, w)
      else if match pmax with Some hi => py_gt v hi | None => false end then
        (Raise (ValueError ("value must be at most " +:+ format_bound pmax)),
         self, w)
      else
        discard (_command self w "set_property" [VStr pname; v] [] None)
  | Stepped s =>
      discard (_command self w "step_property"
                        [VStr pname; _val s; _dir s] [] None)
  end.

(** [Player._propset_bool] (lines 154-160) *)
Definition _propset_bool (self : Player) (w : World) (val : assigned)
    (pname : string)
  : outcome unit * Player * World :=
  match val with
  | Plain v =>
      if negb (isinstance v Tbool) then
        (Raise (TypeError "expected bool"), self, w)
      else discard (_command self w "set_property" [VStr pname; v] [] None)
  | Stepped _ =>
      discard (_command self w "step_property" [VStr pname] [] None)
  end.

(** Lines 223-227 of [_generate_properties]: the setter given to a
    settable property of class [ptype]. *)
Definition propset_for (pname : string) (ptype : pytype)
    (pmin pmax : option value) (self : Player) (w : World) (val : assigned)
  : outcome unit * Player * World :=
  match ptype with
  | Tbool => _propset_bool self w val pname
  | _ => _propset self w val pname ptype pmin pmax
  end.

(** *** The words of the specification about the channel *)

(** An argument on the wire: [1] or [0] for a boolean, the string form of
    anything else. *)
Definition spec_render (x : value) : string :=
  match x with
  | VBool true => "1"
  | VBool false => "0"
  | _ => str x
  end.

(** The outgoing line: prefix, name and arguments, each followed by one
    space, then the newline; no prefix for [quit], [pause] and [stop]. *)
Definition wire_line (prefix name : string) (args : list value) : string :=
  let body :=
    name +:+ SP
    +:+ String.concat EmptyString (map (fun a => spec_render a +:+ SP) args)
    +:+ NL in
  if decide (name = "quit" \/ name = "pause" \/ name = "stop") then body
  else prefix +:+ SP +:+ body.


End Core.

(** ** The words of the specification, as definitions *)

Module Spec.

Fixpoint all_chars (P : ascii -> bool) (s : string) : bool :=
  match s with
  | EmptyString => true
  | String c s' => P c && all_chars P s'
  end.

Definition first_is (P : ascii -> bool) (s : string) : bool :=
  match s with
  | EmptyString => false
  | String c _ => P c
  end.

Fixpoint last_is (P : ascii -> bool) (s : string) : bool :=
  match s with
  | EmptyString => false
  | String c EmptyString => P c
  | String _ s' => last_is P s'
  end.

Fixpoint occurs (c : ascii) (s : string) : bool :=
  match s with
  | EmptyString => false
  | String d s' => Ascii.eqb d c || occurs c s'
  end.

(** [text] is what comes after the first [sep] of [s], and is empty when
    [s] has no [sep]. *)
Definition follows_first (sep : ascii) (s text : string) : Prop :=
  (exists before,
      s = before +:+ String sep text /\ occurs sep before = false)
  \/ (occurs sep s = false /\ text = EmptyString).

(** [core] is [s] with the characters of class [P] that surround it
    taken away. *)
Definition stripped_of (P : ascii -> bool) (s core : string) : Prop :=
  exists l r,
    s = l +:+ core +:+ r
    /\ all_chars P l = true /\ all_chars P r = true
    /\ first_is P core = false /\ last_is P core = false.

(** [s] is [body] followed by trailing whitespace only. *)
Definition without_trailing_space (s body : string) : Prop :=
  exists r,
    s = body +:+ r /\ all_chars isspace r = true
    /\ last_is isspace body = false.



End Spec.
Import Spec.

(** ** A concrete runtime and a concrete player

    Used to evaluate the embedding on explicit inputs.  Floats are cut
    down to whole numbers, and [shlex.split] to text without quotes and
    backslashes, where it splits at blanks. *)

Module Sample.

Definition shlex_blank (c : ascii) : bool :=
  let n := nat_of_ascii c in
  ((n =? 32) || (n =? 9) || (n =? 13) || (n =? 10))%nat.

Definition shlex_special (c : ascii) : bool :=
  let n := nat_of_ascii c in
  ((n =? 34) || (n =? 39) || (n =? 92))%nat.

Fixpoint split_blanks (s tok : string) : list string :=
  match s with
  | EmptyString => if is_empty tok then [] else [tok]
  | String c s' =>
      if shlex_blank c then
        if is_empty tok then split_blanks s' EmptyString
        else tok :: split_blanks s' EmptyString
      else split_blanks s' (tok +:+ String c EmptyString)
  end.

Definition split (s : string) : exn + list string :=
  if all_chars (fun c => negb (shlex_special c)) s then
    inr (split_blanks s EmptyString)
  else inl (ValueError "No closing quotation").

#[global] Instance runtime : Runtime := {|
  float := Z;
  float_lt := Z.ltb;
  float_str := fun x => str_int x +:+ ".0";
  shlex_split := split
|}.

(** A running child with piped stdout at address 1, two subscribers on
    stdout, and four lines waiting in the pipe. *)
Definition broadcaster : FileWrapper :=
  mkFileWrapper (Some 1%nat) false [3%nat; 4%nat].

Definition player : Player :=
  mkPlayer "pausing_keep_force" fixed_args broadcaster FileWrapper_init
           (Some (mkPopen None [] (Some 1%nat) None)).

(** The same player once the child has exited with status 0. *)
Definition dead : Player :=
  mkPlayer "pausing_keep_force" fixed_args broadcaster FileWrapper_init
           (Some (mkPopen (Some 0) [] (Some 1%nat) None)).

Definition world : World :=
  mkWorld {[ 1%nat := ["Starting playback...  " +:+ NL;
                       "ANS_volume='50'" +:+ NL;
                       "   " +:+ NL;
                       "ANS_ERROR=PROPERTY_UNKNOWN" +:+ NL] ]} [].

(** A line as the child prints it for a file named in Latin-1: the byte
    233 is outside ASCII. *)
Definition latin1 : string :=
  "Playing caf" +:+ String (ascii_of_nat 233) (".mp3" +:+ NL).

(** The stream of [world] with that line in front. *)
Definition garbled : World :=
  mkWorld {[ 1%nat := [latin1;
                       "ANS_volume='50'" +:+ NL;
                       "ANS_ERROR=PROPERTY_UNKNOWN" +:+ NL] ]} [].

End Sample.

(** ** The rest of [core.py]

    The functions the sections above leave out: the property getters, the
    life cycle of the child, and the introspection that turns the lists
    printed by the executable into setters and methods. *)

Module TextMore.

Fixpoint any_char (P : ascii -> bool) (s : string) : bool :=
  match s with
  | EmptyString => false
  | String c s' => P c || any_char P s'
  end.

Definition isupper_char (c : ascii) : bool :=
  let n := nat_of_ascii c in ((65 <=? n) && (n <=? 90))%nat.

Definition islower_char (c : ascii) : bool :=
  let n := nat_of_ascii c in ((97 <=? n) && (n <=? 122))%nat.

(** [s.islower()] on ASCII text: some letter is lower case and no letter
    is upper case. *)
Definition islower (s : string) : bool :=
  any_char islower_char s && negb (any_char isupper_char s).

(** [s.endswith(suffix)] *)
Fixpoint endswith (s suffix : string) : bool :=
  String.eqb s suffix
  || match s with
     | EmptyString => false
     | String _ s' => endswith s' suffix
     end.

(** [s.split()]: the maximal runs of characters that are not white space;
    [tok] is the run being read. *)
Fixpoint split_run (s tok : string) : list string :=
  match s with
  | EmptyString => if is_empty tok then [] else [tok]
  | String c s' =>
      if isspace c then
        if is_empty tok then split_run s' EmptyString
        else tok :: split_run s' EmptyString
      else split_run s' (tok +:+ String c EmptyString)
  end.

Definition split_words (s : string) : list string := split_run s EmptyString.

(** [s.split(sep)] for a separator of one character. *)
Fixpoint split_on (sep : ascii) (s : string) : list string :=
  match s with
  | EmptyString => [EmptyString]
  | String c s' =>
      if Ascii.eqb c sep then EmptyString :: split_on sep s'
      else
        match split_on sep s' with
        | h :: t => String c h :: t
        | [] => [String c EmptyString]
        end
  end.

(** [s.replace(old, new)] for a non-empty [old], scanning from the left;
    [skip] counts the characters of a match that are still to be passed
    over. *)
Fixpoint replace_from (skip : nat) (old new s : string) : string :=
  match s with
  | EmptyString => EmptyString
  | String c s' =>
      match skip with
      | S k => replace_from k old new s'
      | O =>
          if startswith s old then
            new +:+ replace_from (String.length old - 1) old new s'
          else String c (replace_from 0 old new s')
      end
  end.

Definition replace (old new s : string) : string := replace_from 0 old new s.

(** [int(s)] of Python 2 on decoded text: the white space around the
    number is passed over, and what is left has to be an optional sign
    followed by at least one decimal digit. *)
Definition int_of_text (s : string) : option Z :=
  match strip isspace s with
  | String a s' =>
      if Ascii.eqb a "+" then
        (fun d => Z.of_int (Decimal.Pos d)) <$> NilZero.uint_of_string s'
      else Z.of_int <$> NilZero.int_of_string (String a s')
  | EmptyString => None
  end.

(** [l[::2]] and [l[1::2]] *)
Fixpoint evens {A} (l : list A) : list A :=
  match l with
  | [] => []
  | x :: l' =>
      x :: match l' with
           | [] => []
           | _ :: l'' => evens l''
           end
  end.

Definition odds {A} (l : list A) : list A :=
  match l with
  | [] => []
  | _ :: l' => evens l'
  end.

(** [dict(pairs)]: a later pair replaces an earlier one with the same
    key. *)
Definition dict_of (pairs : list (string * string)) : gmap string string :=
  foldl (fun m kv => <[kv.1 := kv.2]> m) ∅ pairs.

(** The characters of a decimal integer: the digits and the minus
    sign. *)
Definition isdecimal (c : ascii) : bool :=
  let n := nat_of_ascii c in
  (((48 <=? n) && (n <=? 57)) || (n =? 45))%nat.

End TextMore.
Import TextMore.

(** What ends a call besides the exceptions of [exn]. *)
Inductive failure :=
| Exn (e : exn)
| KeyError (key : string)
| OSError.

#[global] Instance pytype_eq_dec : EqDecision pytype.
Proof. solve_decision. Defined.

Section Rest.

Context {RT : Runtime}.

(** [float(s)], outside the embedding like the floats themselves; [None]
    stands for its [ValueError]. *)
Variable float_of_text : string -> option float.

(** *** Property getters (lines 125-140) *)

(** [ptype(text)] for the classes of the type map: [int] and [float]
    parse, [bool] is the truth value of the text, [str] keeps it, and
    [dict] accepts the empty text alone.  The messages leave out the
    quoted literal. *)
Definition convert (ptype : pytype) (text : string) : exn + value :=
  match ptype with
  | Tbool => inr (VBool (negb (is_empty text)))
  | Tint =>
      match int_of_text text with
      | Some n => inr (VInt n)
      | None => inl (ValueError "invalid literal for int() with base 10")
      end
  | Tfloat =>
      match float_of_text text with
      | Some x => inr (VFloat x)
      | None => inl (ValueError "could not convert string to float")
      end
  | Tstr => inr (VStr text)
  | Tdict =>
      if is_empty text then inr (VDict "{}")
      else inl (ValueError
        "dictionary update sequence element #0 has length 1; 2 is required")
  end.

(** [Player._propget] (lines 125-128) *)
Definition _propget (self : Player) (w : World) (pname : string)
    (ptype : pytype)
  : outcome (option value) * Player * World :=
  match _command self w "get_property" [VStr pname] [] None with
  | (Return (Some res), self, w) =>
      match convert ptype res with
      | inr v => (Return (Some v), self, w)
      | inl e => (Raise e, self, w)
      end
  | (Return None, self, w) => (Return None, self, w)
  | (Raise e, self, w) => (Raise e, self, w)
  | (Hang, self, w) => (Hang, self, w)
  end.


(** Lines 138-140: the answer of a string-list property as a dict. *)
Definition metadata (res : string) : gmap string string :=
  let res := split_on "," res in
  dict_of (zip (evens res) (odds res)).

(** [Player._propget_dict] (lines 135-140) *)
Definition _propget_dict (self : Player) (w : World) (pname : string)
  : outcome (option (gmap string string)) * Player * World :=
  match _command self w "get_property" [VStr pname] [] None with
  | (Return (Some res), self, w) => (Return (Some (metadata res)), self, w)
  | (Return None, self, w) => (Return None, self, w)
  | (Raise e, self, w) => (Raise e, self, w)
  | (Hang, self, w) => (Hang, self, w)
  end.

(** *** Life cycle (lines 78-88 and 282-315) *)

(** [Player.spawn] (lines 282-293).  [popen] is [subprocess.Popen] with the
    handles the two wrappers were built with: given the argument vector it
    answers the new process object, or [None] for [OSError]. *)
Definition spawn (path : string) (popen : list string -> option Popen)
    (self : Player) : failure + Player :=
  if is_alive self then inr self
  else
    match popen (path :: _args self) with
    | None => inl OSError
    | Some proc =>
        inr (mkPlayer (command_prefix self) (_args self)
               (mkFileWrapper (stdout proc) (_lock (_stdout self))
                              (_subscribers (_stdout self)))
               (mkFileWrapper (stderr proc) (_lock (_stderr self))
                              (_subscribers (_stderr self)))
               (Some proc))
    end.

(** [wrapper._file = None] *)
Definition detach (fw : FileWrapper) : FileWrapper :=
  mkFileWrapper None (_lock fw) (_subscribers fw).

(** [self._proc.wait()] once the child has exited with [status]. *)
Definition waited (self : Player) (status : Z) : Player :=
  match _proc self with
  | Some p =>
      mkPlayer (command_prefix self) (_args self) (_stdout self)
               (_stderr self)
               (Some (mkPopen (Some status) (stdin p) (stdout p) (stderr p)))
  | None => self
  end.

(** [Player.quit] (lines 295-305).  [exit] is the status the child exits
    with once told to quit, [None] if it never exits, in which case
    [wait()] does not return. *)
Definition quit (self : Player) (w : World) (retcode : value)
    (exit : option Z)
  : outcome (option Z) * Player * World :=
  if negb (is_alive self) then (Return None, self, w)
  else
    let self :=
      mkPlayer (command_prefix self) (_args self) (detach (_stdout self))
               (detach (_stderr self)) (_proc self) in
    match _command self w "quit" [retcode] [] None with
    | (Return _, self, w) =>
        match exit with
        | Some status => (Return (Some status), waited self status, w)
        | None => (Hang, self, w)
        end
    | (Raise e, self, w) => (Raise e, self, w)
    | (Hang, self, w) => (Hang, self, w)
    end.

(** The player [quit] leaves behind when the child was alive: detached,
    the [quit] line written, the exit status known. *)
Definition stopped (self : Player) (retcode : value) (status : Z) : Player :=
  waited
    (stdin_write
       (mkPlayer (command_prefix self) (_args self) (detach (_stdout self))
                 (detach (_stderr self)) (_proc self))
       ("quit " +:+ (if is_None retcode then EmptyString
                     else spec_render retcode +:+ SP) +:+ NL))
    status.

(** [Player.__init__] (lines 78-84); [prefix] is the class attribute
    [command_prefix]. *)
Definition Player_init (prefix path : string)
    (popen : list string -> option Popen) (new : args_value)
    (autospawn : bool) : failure + Player :=
  match set_args (mkPlayer prefix [] FileWrapper_init FileWrapper_init None)
                 new with
  | (Raise e, _) => inl (Exn e)
  | (_, self) => if autospawn then spawn path popen self else inr self
  end.

(** [player.args += extra]: the getter, the list sum, the setter. *)
Definition args_extend (self : Player) (extra : list value)
  : outcome unit * Player :=
  set_args self (ArgsSeq (map VStr (args self) ++ extra)).

(** [n] calls of [publish] in a row, one for each readiness event; an
    exception ends the run. *)
Fixpoint pump (n : nat) (fw : FileWrapper) (w : World)
  : outcome unit * World :=
  match n with
  | O => (Return tt, w)
  | S n' =>
      match publish fw w with
      | (Return _, w) => pump n' fw w
      | (Raise e, w) => (Raise e, w)
      | (Hang, w) => (Hang, w)
      end
  end.

(** What [pump] is expected to hand out for the lines it reads: each line
    that is not blank, stripped, once per subscriber. *)
Definition deliveries (subscribers : list nat) (lines : list string)
  : list (nat * string) :=
  flat_map
    (fun raw =>
       let data := rstrip isspace raw in
       if is_empty data then [] else map (fun s => (s, data)) subscribers)
    lines.

(** *** Introspection (lines 162-280) *)

(** The type map of [introspect] (lines 275-278); [None] is the
    [KeyError] of a token that is not a key. *)
Definition type_map (token : string) : option pytype :=
  if decide (token = "Flag") then Some Tbool
  else if decide (token = "Float") then Some Tfloat
  else if decide (token = "Integer") then Some Tint
  else if decide (token = "Position") then Some Tint
  else if decide (token = "Time") then Some Tfloat
  else if decide (token = "String") then Some Tstr
  else if decide (token = "String list") then Some Tdict
  else None.

Definition isbracket (c : ascii) : bool :=
  Ascii.eqb c "[" || Ascii.eqb c "]".

(** The body of the loop of [_gen_func_sig] (lines 179-187): the piece of
    signature and the type name of argument [i]. *)
Definition sig_entry (i : nat) (arg : string) : failure + string * string :=
  if startswith arg "[" then
    let arg := strip isbracket arg in
    match type_map arg with
    | Some t =>
        inr (type_name t +:+ str_int (Z.of_nat i) +:+ "=None,", type_name t)
    | None => inl (KeyError arg)
    end
  else
    match type_map arg with
    | Some t => inr (type_name t +:+ str_int (Z.of_nat i) +:+ ",", type_name t)
    | None => inl (KeyError arg)
    end.

Fixpoint sig_entries (i : nat) (args : list string)
  : failure + list (string * string) :=
  match args with
  | [] => inr []
  | arg :: args' =>
      match sig_entry i arg with
      | inl e => inl e
      | inr entry =>
          match sig_entries (S i) args' with
          | inl e => inl e
          | inr entries => inr (entry :: entries)
          end
      end
  end.

(** What [_gen_func_sig] returns: [sig], [params] and [types]. *)
Record method := mkMethod {
  m_sig : string;
  m_params : string;
  m_types : string
}.

(** [Player._gen_func_sig] (lines 174-191) *)
Definition _gen_func_sig (args : list string) : failure + method :=
  match sig_entries 0 args with
  | inl e => inl e
  | inr entries =>
      let sig := String.concat EmptyString (map fst entries) in
      let params := replace "=None" EmptyString sig in
      let types := "(" +:+ String.concat "," (map snd entries) +:+ ")" in
      inr (mkMethod sig params types)
  end.

Definition exclude : list string :=
  ["tv_set_brightness"; "tv_set_contrast"; "tv_set_saturation";
   "tv_set_hue"; "vo_fullscreen"; "vo_ontop"; "vo_rootwin"; "vo_border";
   "osd"; "frame_drop"].

(** One turn of the loop of [_generate_methods] (lines 246-266).  [has]
    holds the names for which [hasattr(cls, name)] is true; the answer is
    the attribute set by [setattr], if any.  The generated text is taken
    to be accepted by [exec], as it is for names that are identifiers. *)
Definition method_line (has : gset string) (line : string)
  : failure + option (string * method) :=
  match decode line with
  | inl e => inl (Exn e)
  | inr line =>
      match split_words line with
      | [] => inr None
      | name :: args =>
          if (startswith name "get_" && negb (startswith name "get_meta"))
             || endswith name "_property" || bool_decide (name = "quit")
          then inr None
          else if bool_decide (name ∈ has) || bool_decide (name ∈ exclude)
          then inr None
          else
            let name :=
              if startswith name "osd_show_property_"
              then "osd_show_property_text" else name in
            match _gen_func_sig args with
            | inl e => inl e
            | inr m => inr (Some (name, m))
            end
      end
  end.

(** [Player._generate_methods] (lines 238-266) over the lines printed by
    the executable: the names [hasattr] answers for, and the methods
    made. *)
Fixpoint _generate_methods (lines : list string) (has : gset string)
    (made : gmap string method)
  : failure + gset string * gmap string method :=
  match lines with
  | [] => inr (has, made)
  | line :: lines' =>
      match method_line has line with
      | inl e => inl e
      | inr None => _generate_methods lines' has made
      | inr (Some (name, m)) =>
          _generate_methods lines' ({[name]} ∪ has) (<[name := m]> made)
      end
  end.

Definition read_only : list string :=
  ["length"; "pause"; "stream_end"; "stream_length"; "stream_start"].

Definition read_write : list string := ["sub_delay"].

(** The dict [rename] of line 198, applied at lines 234-235. *)
Definition rename (pname : string) : string :=
  if decide (pname = "pause") then "paused"
  else if decide (pname = "path") then "filepath"
  else pname.

(** What [property(propget, propset, doc)] is built from. *)
Record property := mkProperty {
  prop_name : string;
  prop_type : pytype;
  prop_min : option value;
  prop_max : option value;
  prop_settable : bool;
  prop_doc : string
}.

(** [Player._gen_propdoc] (lines 162-172); [settable] is
    [propset is not None]. *)
Definition _gen_propdoc (ptype : pytype) (pmin pmax : option value)
    (settable : bool) : string :=
  let doc := ["type: " +:+ type_name ptype] in
  let doc :=
    if settable && negb (bool_decide (ptype = Tbool)) then
      (doc ++ match pmin with
              | Some lo => ["min: " +:+ str lo]
              | None => []
              end
           ++ match pmax with
              | Some hi => ["max: " +:+ str hi]
              | None => []
              end)%list
    else doc in
  let doc := if negb settable then (doc ++ ["(read-only)"])%list else doc in
  String.concat NL doc.

(** The two unpackings of lines 205-209. *)
Definition unpack (line : list string)
  : failure + string * string * string * string :=
  match line with
  | [pname; ptype; pmin; pmax] => inr (pname, ptype, pmin, pmax)
  | [pname; ptype; ptype2; pmin; pmax] =>
      inr (pname, ptype +:+ " " +:+ ptype2, pmin, pmax)
  | _ =>
      if (length line <? 5)%nat then
        inl (Exn (ValueError
          ("need more than " +:+ str_int (Z.of_nat (length line))
           +:+ (if (length line =? 1)%nat then " value" else " values")
           +:+ " to unpack")))
      else inl (Exn (ValueError "too many values to unpack"))
  end.

(** Lines 212-213: a bound, [None] for the token [No]. *)
Definition bound (ptype : pytype) (token : string)
  : failure + option value :=
  if bool_decide (token = "No") then inr None
  else
    match convert ptype token with
    | inr v => inr (Some v)
    | inl e => inl (Exn e)
    end.

(** [(pmin, pmax) == (None, None)] *)
Definition both_None (pmin pmax : option value) : bool :=
  match pmin, pmax with
  | None, None => true
  | _, _ => false
  end.

(** One turn of the loop of [_generate_properties] (lines 201-236): the
    attribute set by [setattr] and what it is made of, if the line is not
    skipped. *)
Definition property_line (line : string)
  : failure + option (string * property) :=
  match decode line with
  | inl e => inl (Exn e)
  | inr line =>
      let line := split_words line in
      match line with
      | [] => inr None
      | first :: _ =>
          if negb (islower first) then inr None
          else
            match unpack line with
            | inl e => inl e
            | inr (pname, ptype, pmin, pmax) =>
                match type_map ptype with
                | None => inl (KeyError ptype)
                | Some ptype =>
                    match bound ptype pmin with
                    | inl e => inl e
                    | inr pmin =>
                        match bound ptype pmax with
                        | inl e => inl e
                        | inr pmax =>
                            let settable :=
                              (negb (both_None pmin pmax)
                               || bool_decide (pname ∈ read_write))
                              && negb (bool_decide (pname ∈ read_only)) in
                            inr (Some
                              (rename pname,
                               mkProperty pname ptype pmin pmax settable
                                 (_gen_propdoc ptype pmin pmax settable)))
                        end
                    end
                end
            end
      end
  end.

(** [Player._generate_properties] (lines 193-236) over the lines printed
    by the executable. *)
Fixpoint _generate_properties (lines : list string)
    (made : gmap string property) : failure + gmap string property :=
  match lines with
  | [] => inr made
  | line :: lines' =>
      match property_line line with
      | inl e => inl e
      | inr None => _generate_properties lines' made
      | inr (Some (attr, prop)) =>
          _generate_properties lines' (<[attr := prop]> made)
      end
  end.

(** The getter and the setter a property is given (lines 215-229). *)
Inductive getter := ByPropget | ByPropgetBool | ByPropgetDict.

Definition propget_of (prop : property) : getter :=
  match prop_type prop with
  | Tbool => ByPropgetBool
  | Tdict => ByPropgetDict
  | _ => ByPropget
  end.

(** Assigning to a generated property: [AttributeError] without a
    setter. *)
Definition assign (prop : property) (self : Player) (w : World)
    (val : assigned) : option (outcome unit * Player * World) :=
  if prop_settable prop then
    Some (propset_for (prop_name prop) (prop_type prop) (prop_min prop)
                      (prop_max prop) self w val)
  else None.

(** *** What the generated methods pass as [types] *)

(** The value of the keyword [types]: a tuple of classes, or a class. *)
Inductive types_kw :=
| TypesTuple (ts : list pytype)
| TypesClass (t : pytype).

Definition class_named (n : string) : option pytype :=
  if decide (n = "bool") then Some Tbool
  else if decide (n = "int") then Some Tint
  else if decide (n = "float") then Some Tfloat
  else if decide (n = "str") then Some Tstr
  else if decide (n = "dict") then Some Tdict
  else None.

(** What Python makes of the text [types] when the generated code runs:
    empty parentheses are the empty tuple, parentheses around one name are
    that class, and names separated by commas are a tuple.  Text of any
    other shape is never generated and has no value here. *)
Definition eval_types (text : string) : option types_kw :=
  if startswith text "(" && endswith text ")" then
    let inner := String.substring 1 (String.length text - 2) text in
    match split_on "," inner with
    | [n] =>
        if is_empty n then Some (TypesTuple [])
        else TypesClass <$> class_named n
    | names => TypesTuple <$> mapM class_named names
    end
  else None.

(** [_command] when [types] may be a class (lines 319-328): a class is
    true, and [types[:len(args)]] raises on it. *)
Definition _command_kw (self : Player) (w : World) (name : string)
    (args : list value) (types : types_kw) (prefix : option string)
  : outcome (option string) * Player * World :=
  match types with
  | TypesTuple ts => _command self w name args ts prefix
  | TypesClass _ =>
      if negb (is_alive self) || is_empty name then (Return None, self, w)
      else
        (Raise (TypeError "'type' object has no attribute '__getitem__'"),
         self, w)
  end.

(** The parameters of a generated method besides [self] and [prefix], as
    the text [sig] of its [def] statement declares them: one flag for
    each, true when the parameter has the default [None]. *)
Definition parameters (m : method) : list bool :=
  map (fun entry => endswith entry "=None")
      (removelast (split_on "," (m_sig m))).

(** A [def] statement is accepted only if no parameter without a default
    follows one with a default. *)
Fixpoint defaults_last (ps : list bool) : bool :=
  match ps with
  | [] => true
  | true :: ps' => forallb id ps'
  | false :: ps' => defaults_last ps'
  end.

(** A generated method (lines 260-263) called with the values [actuals]
    by position and with the keyword [prefix].  Python binds the values to
    the parameters before the body runs, and raises [TypeError] when there
    are more values than parameters, when a value lands on [prefix],
    which the keyword sets as well, or when a parameter without a default
    is left without a value; a parameter with a default that is left
    without a value is [None].  The body hands the parameters to
    [_command].  [exec] accepts the text only if no parameter without a
    default follows one with a default; otherwise there is no method to
    call. *)
Definition call_method (name : string) (m : method) (self : Player)
    (w : World) (actuals : list value) (prefix : option string)
  : option (outcome (option string) * Player * World) :=
  let ps := parameters m in
  if negb (defaults_last ps) then None
  else
    match eval_types (m_types m) with
    | None => None
    | Some types =>
        let n := length ps in
        let r := length (filter (fun opt => opt = false) ps) in
        let k := length actuals in
        let count (i : nat) := str_int (Z.of_nat i) in
        Some
          (if (n + 1 <? k)%nat then
             (Raise (TypeError
                (name +:+ "() takes at most " +:+ count (n + 2)%nat
                 +:+ " arguments (" +:+ count (k + 2)%nat +:+ " given)")),
              self, w)
           else if (k =? n + 1)%nat then
             (Raise (TypeError
                (name
                 +:+ "() got multiple values for keyword argument 'prefix'")),
              self, w)
           else if (k <? r)%nat then
             (Raise (TypeError
                (name +:+ "() takes at least " +:+ count (r + 1)%nat
                 +:+ " arguments (" +:+ count (k + 2)%nat +:+ " given)")),
              self, w)
           else
             _command_kw self w name
               (actuals ++ replicate (n - k) VNone)%list types prefix)
    end.

(** *** Descriptions used to state what the introspection produces *)

(** What a token of the command list says of its parameter: whether it is
    optional, and its class. *)
Definition describes (arg : string) (d : bool * pytype) : Prop :=
  startswith arg "[" = d.1
  /\ type_map (if d.1 then strip isbracket arg else arg) = Some d.2.

(** The texts of the parameters, numbered from [i]. *)
Fixpoint numbered (text : nat -> bool * pytype -> string) (i : nat)
    (ds : list (bool * pytype)) : list string :=
  match ds with
  | [] => []
  | d :: ds' => text i d :: numbered text (S i) ds'
  end.

Definition sig_text (i : nat) (d : bool * pytype) : string :=
  type_name d.2 +:+ str_int (Z.of_nat i)
  +:+ (if d.1 then "=None," else ",").

Definition param_text (i : nat) (d : bool * pytype) : string :=
  type_name d.2 +:+ str_int (Z.of_nat i) +:+ ",".

(** The declaration of a parameter in the signature, without the comma
    that closes it. *)
Definition entry_text (i : nat) (d : bool * pytype) : string :=
  type_name d.2 +:+ str_int (Z.of_nat i)
  +:+ (if d.1 then "=None" else EmptyString).

(** When a generated property has a setter. *)
Definition settable_rule (p : property) : Prop :=
  prop_settable p = true
  <-> ((prop_name p ∉ read_only)
       /\ (prop_min p <> None \/ prop_max p <> None
           \/ (prop_name p ∈ read_write))).

(** The names [_generate_methods] may give to a method. *)
Definition acceptable (name : string) : Prop :=
  name <> "quit"
  /\ endswith name "_property" = false
  /\ (startswith name "get_" = true -> startswith name "get_meta" = true)
  /\ (name ∉ exclude).

End Rest.

(** ** More sample data, for the rest of the module *)

Module Fixture.

(** [float(s)] for the sample runtime, whose floats are whole numbers. *)
Definition float_of_text : string -> option (@float Sample.runtime) :=
  int_of_text.

(** A running child whose stdout is not a pipe. *)
Definition unpiped : Player :=
  mkPlayer "pausing_keep_force" fixed_args FileWrapper_init FileWrapper_init
           (Some (mkPopen None [] None None)).


(** A stream that answers a flag getter and an integer getter. *)
Definition answering : World :=
  mkWorld {[ 1%nat := ["ANS_pause=yes" +:+ NL; "ANS_volume= 42" +:+ NL] ]} [].

(** What [subprocess.Popen] gives a restarted player: a new child with
    stdout piped at address 2. *)
Definition popen (argv : list string) : option Popen :=
  Some (mkPopen None [] (Some 2%nat) None).

(** Lines as [mplayer -list-properties] prints them. *)
Definition property_lines : list string :=
  [" Name                 Type            Min        Max";
   EmptyString;
   " volume               Float           0          100";
   " pause                Flag            0          1";
   " fullscreen           Flag            0          1";
   " path                 String          No         No";
   " sub_delay            Float           No         No";
   " metadata             String list     No         No";
   EmptyString;
   "Total: 6 properties"].

(** Lines as [mplayer -input cmdlist] prints them. *)
Definition command_lines : list string :=
  ["seek                 Float [Integer]";
   "speed_set            Float";
   "pause";
   "quit                 [Integer]";
   "get_percent_pos";
   "get_meta_title";
   "set_property         String String";
   "osd                  [Integer]";
   "osd_show_property_te String [Integer] [Integer]"].

End Fixture.

(** ** Facts about the text primitives *)

Module TextFacts.

Lemma app_cons c a b : String c a +:+ b = String c (a +:+ b).
Proof. reflexivity. Qed.

Lemma app_empty s : EmptyString +:+ s = s.
Proof. reflexivity. Qed.

Ltac norm_app := rewrite ?app_cons, ?app_empty in *.

Lemma app_assoc a b c : (a +:+ b) +:+ c = a +:+ b +:+ c.
Proof.
  induction a as [|x a IH]; [reflexivity|].
  norm_app. f_equal. exact IH.
Qed.

Lemma app_empty_r a : a +:+ EmptyString = a.
Proof.
  induction a as [|x a IH]; [reflexivity|].
  norm_app. f_equal. exact IH.
Qed.



Lemma rstrip_split P s :
  exists r, s = rstrip P s +:+ r /\ all_chars P r = true.
Proof.
  induction s as [|c s IH]; simpl.
  - exists EmptyString. split; reflexivity.
  - destruct IH as (r & Hs & Hr).
    destruct (rstrip P s) as [|d t] eqn:Ht.
    + norm_app. subst r.
      destruct (P c) eqn:Hc.
      * exists (String c s). simpl. rewrite Hc, Hr. split; reflexivity.
      * exists s. split; [reflexivity | exact Hr].
    + exists r. split; [|exact Hr]. norm_app. f_equal. exact Hs.
Qed.

Lemma rstrip_last P s : last_is P (rstrip P s) = false.
Proof.
  induction s as [|c s IH]; simpl; [reflexivity|].
  destruct (rstrip P s) as [|d t] eqn:Ht.
  - destruct (P c) eqn:Hc; simpl; [reflexivity | exact Hc].
  - exact IH.
Qed.


Lemma rstrip_spec s : without_trailing_space s (rstrip isspace s).
Proof.
  destruct (rstrip_split isspace s) as (r & Hs & Hr).
  exists r. split; [exact Hs|]. split; [exact Hr | apply rstrip_last].
Qed.



(** The descriptions of the specification determine the text: they hold
    of nothing but what the primitives compute. *)

Lemma lstrip_all P s : all_chars P s = true -> lstrip P s = EmptyString.
Proof.
  induction s as [|c s IH]; simpl; [reflexivity|].
  intros H. apply andb_true_iff in H as [Hc Hs]. rewrite Hc. auto.
Qed.

Lemma lstrip_app P l t :
  all_chars P l = true -> lstrip P (l +:+ t) = lstrip P t.
Proof.
  induction l as [|c l IH]; simpl; [reflexivity|].
  intros H. apply andb_true_iff in H as [Hc Hl].
  norm_app. simpl. rewrite Hc. auto.
Qed.

Lemma rstrip_all P r : all_chars P r = true -> rstrip P r = EmptyString.
Proof.
  induction r as [|c r IH]; simpl; [reflexivity|].
  intros H. apply andb_true_iff in H as [Hc Hr].
  rewrite (IH Hr), Hc. reflexivity.
Qed.

Lemma rstrip_app P t r :
  all_chars P r = true -> rstrip P (t +:+ r) = rstrip P t.
Proof.
  intros Hr. induction t as [|c t IH]; norm_app.
  - apply rstrip_all, Hr.
  - simpl. rewrite IH. reflexivity.
Qed.

Lemma rstrip_id P t : last_is P t = false -> rstrip P t = t.
Proof.
  induction t as [|c t IH]; [reflexivity|].
  destruct t as [|d t].
  - simpl. intros ->. reflexivity.
  - intros H. change (last_is P (String d t) = false) in H.
    change (rstrip P (String c (String d t)))
      with (match rstrip P (String d t) with
            | EmptyString =>
                if P c then EmptyString else String c EmptyString
            | r => String c r
            end).
    rewrite (IH H). reflexivity.
Qed.

Lemma stripped_of_strip P s core : stripped_of P s core -> core = strip P s.
Proof.
  intros (l & r & -> & Hl & Hr & Hfirst & Hlast). unfold strip.
  rewrite lstrip_app by exact Hl.
  destruct core as [|c core].
  - norm_app. rewrite lstrip_all by exact Hr. reflexivity.
  - simpl in Hfirst. norm_app. simpl lstrip. rewrite Hfirst.
    rewrite <- app_cons, rstrip_app by exact Hr.
    symmetry. apply rstrip_id, Hlast.
Qed.

Lemma after_first_absent sep s :
  occurs sep s = false -> after_first sep s = EmptyString.
Proof.
  induction s as [|c s IH]; simpl; [reflexivity|].
  intros H. apply orb_false_iff in H as [Hc Hs]. rewrite Hc. auto.
Qed.

Lemma follows_first_after sep s text :
  follows_first sep s text -> text = after_first sep s.
Proof.
  intros [(b & -> & Hb) | (Hs & ->)].
  - induction b as [|c b IH]; norm_app; simpl.
    + rewrite Ascii.eqb_refl. reflexivity.
    + simpl in Hb. apply orb_false_iff in Hb as [Hc Hb].
      rewrite Hc. auto.
  - symmetry. apply after_first_absent, Hs.
Qed.



Lemma startswith_app s p : startswith (p +:+ s) p = true.
Proof.
  induction p as [|a p IH]; simpl; [reflexivity|].
  norm_app. rewrite Ascii.eqb_refl. exact IH.
Qed.

Lemma startswith_prefix s p :
  startswith s p = true <-> exists t, s = p +:+ t.
Proof.
  split.
  - revert s. induction p as [|a p IH]; intros s H; simpl in *.
    + exists s. reflexivity.
    + destruct s as [|b s]; [discriminate|].
      destruct (Ascii.eqb a b) eqn:Hab; [|discriminate].
      apply Ascii.eqb_eq in Hab. subst b.
      destruct (IH _ H) as (t & ->). exists t. reflexivity.
  - intros (t & ->). apply startswith_app.
Qed.

Lemma is_ascii_app a b : is_ascii (a +:+ b) = is_ascii a && is_ascii b.
Proof.
  induction a as [|c a IH]; norm_app; [reflexivity|].
  cbn [is_ascii]. rewrite IH. apply andb_assoc.
Qed.

Lemma decode_ascii s : is_ascii s = true -> decode s = inr s.
Proof. intros H. unfold decode. rewrite H. reflexivity. Qed.

Lemma decode_non_ascii s :
  is_ascii s = false ->
  decode s = inl (UnicodeDecodeError s (first_non_ascii s)).
Proof. intros H. unfold decode. rewrite H. reflexivity. Qed.

Lemma decode_inr s t : decode s = inr t -> t = s /\ is_ascii s = true.
Proof.
  unfold decode. destruct (is_ascii s); [|discriminate].
  intros [= <-]. split; reflexivity.
Qed.

(** At end of file [readline()] answers the empty string, which no key
    of the exchange matches. *)
Lemma eof_is_no_answer k :
  startswith EmptyString ("ANS_" +:+ k)
  || startswith EmptyString "ANS_ERROR" = false.
Proof. reflexivity. Qed.

End TextFacts.

(** ** The output broadcaster *)

Section Broadcaster.

Implicit Types (self : FileWrapper) (f g : nat) (l : list nat).

Lemma filter_other_id f l : f ∉ l -> filter (fun g => g <> f) l = l.
Proof.
  induction l as [|y l IH]; intros Hf; [reflexivity|].
  apply not_elem_of_cons in Hf as [Hne Hf].
  rewrite filter_cons_True by congruence. f_equal. auto.
Qed.

Lemma list_remove_absent f l : f ∉ l -> list_remove f l = l.
Proof.
  induction l as [|y l IH]; intros Hf; [reflexivity|].
  apply not_elem_of_cons in Hf as [Hne Hf]. simpl.
  destruct (decide (f = y)); [contradiction|]. f_equal. auto.
Qed.

Lemma list_remove_filter f l :
  NoDup l -> list_remove f l = filter (fun g => g <> f) l.
Proof.
  induction 1 as [|y l Hy Hl IH]; [reflexivity|]. simpl.
  destruct (decide (f = y)) as [->|Hne].
  - rewrite filter_cons_False by tauto. symmetry.
    apply filter_other_id, Hy.
  - rewrite filter_cons_True by congruence. f_equal. exact IH.
Qed.

Lemma count_occ_once f l :
  NoDup l -> f ∈ l -> count_occ Nat.eq_dec l f = 1%nat.
Proof.
  intros Hl Hf. apply NoDup_ListNoDup in Hl.
  apply NoDup_count_occ'; [exact Hl|].
  apply list_elem_of_In, Hf.
Qed.

Lemma NoDup_snoc f l : NoDup l -> f ∉ l -> NoDup (l ++ [f]).
Proof.
  intros Hl Hf. apply NoDup_app. split; [exact Hl|].
  split; [|apply NoDup_singleton].
  intros x Hx Hx'. apply list_elem_of_singleton in Hx'. congruence.
Qed.

(** Registration never duplicates: the invariant behind "exactly one
    registration". *)
Lemma hook_NoDup self o :
  NoDup (_subscribers self) -> NoDup (_subscribers (hook self o).2).
Proof.
  intros Hl. destruct o as [f|cls]; simpl; [|exact Hl].
  case_bool_decide; simpl; [exact Hl|].
  apply NoDup_snoc; assumption.
Qed.

Lemma unhook_NoDup self o :
  NoDup (_subscribers self) -> NoDup (_subscribers (unhook self o).2).
Proof.
  intros Hl. destruct o as [f|cls]; simpl; [|exact Hl].
  case_bool_decide; simpl; [|exact Hl].
  rewrite list_remove_filter by exact Hl. apply NoDup_filter, Hl.
Qed.

Lemma fold_call_calls data l w :
  calls (fold_left (call data) l w)
  = (calls w ++ map (fun s => (s, data)) l)%list.
Proof.
  revert w. induction l as [|s l IH]; intros w; simpl.
  - symmetry. apply app_nil_r.
  - rewrite IH. simpl. rewrite <- app_assoc. reflexivity.
Qed.

Lemma fold_call_files data l w :
  files (fold_left (call data) l w) = files w.
Proof.
  revert w. induction l as [|s l IH]; intros w; simpl; [reflexivity|].
  rewrite IH. reflexivity.
Qed.

Lemma readline_calls (f : nat) w : calls (readline f w).2 = calls w.
Proof.
  unfold readline. destruct (files w !! f) as [[|x rest]|]; reflexivity.
Qed.

Lemma hook_registered self f :
  f ∈ _subscribers (hook self (Callable f)).2.
Proof.
  unfold hook. case_bool_decide as Hf; simpl; [exact Hf|].
  apply elem_of_app. right. apply list_elem_of_singleton. reflexivity.
Qed.

Lemma hook_again self f :
  f ∈ _subscribers self -> hook self (Callable f) = (Return false, self).
Proof.
  intros Hf. unfold hook. rewrite bool_decide_eq_true_2 by exact Hf.
  reflexivity.
Qed.

(** C7. [hook] of a non-callable raises a type error and registers
    nothing; [hook] of a callable that is not registered appends it and
    answers [True]; [hook] of a registered callable answers [False] and
    leaves its single registration, so that hooking twice is the same as
    hooking once; [unhook] of a registered subscriber removes it and
    answers [True]; [unhook] of anything else answers [False] and changes
    nothing.  The subscriber list starts empty and both methods keep it
    free of duplicates. *)
Theorem hook_unhook_registry self :
  NoDup (_subscribers self) ->
  (forall cls, exists msg,
      hook self (NotCallable cls) = (Raise (TypeError msg), self))
  /\ (forall f, f ∉ _subscribers self ->
        hook self (Callable f)
        = (Return true,
           mkFileWrapper (_file self) (_lock self)
                         (_subscribers self ++ [f])))
  /\ (forall f, f ∈ _subscribers self ->
        hook self (Callable f) = (Return false, self)
        /\ count_occ Nat.eq_dec (_subscribers self) f = 1%nat)
  /\ (forall f,
        let once := (hook self (Callable f)).2 in
        hook once (Callable f) = (Return false, once)
        /\ count_occ Nat.eq_dec (_subscribers once) f = 1%nat)
  /\ (forall f, f ∈ _subscribers self ->
        exists rest,
          unhook self (Callable f)
          = (true, mkFileWrapper (_file self) (_lock self) rest)
          /\ (f ∉ rest)
          /\ rest = filter (fun g => g <> f) (_subscribers self))
  /\ (forall o, (forall f, o = Callable f -> f ∉ _subscribers self) ->
        unhook self o = (false, self))
  /\ (forall o, NoDup (_subscribers (hook self o).2)
                /\ NoDup (_subscribers (unhook self o).2))
  /\ _subscribers FileWrapper_init = [].
Proof.
  intros Hl. repeat split.
  - intros cls. eexists. reflexivity.
  - intros f Hf. unfold hook. rewrite bool_decide_eq_false_2 by exact Hf.
    reflexivity.
  - apply hook_again. assumption.
  - apply count_occ_once; assumption.
  - apply hook_again, hook_registered.
  - apply count_occ_once; [apply hook_NoDup, Hl | apply hook_registered].
  - intros f Hf. exists (list_remove f (_subscribers self)).
    split; [|split].
    + unfold unhook. rewrite bool_decide_eq_true_2 by exact Hf.
      reflexivity.
    + rewrite list_remove_filter by exact Hl.
      intros Hin. apply list_elem_of_filter in Hin as [Hne _]. congruence.
    + apply list_remove_filter, Hl.
  - intros [f|cls] Ho; [|reflexivity].
    unfold unhook. rewrite bool_decide_eq_false_2; [reflexivity|].
    apply Ho. reflexivity.
  - apply hook_NoDup, Hl.
  - apply unhook_NoDup, Hl.
Qed.

End Broadcaster.

(** ** The command channel *)

Section Channel.

Context {RT : Runtime}.

Implicit Types (self : Player) (w : World) (name : string)
  (args : list value) (types : list pytype) (prefix : option string).

Lemma discard_calls {A} (r : outcome A * Player * World) :
  calls (discard r).2 = calls r.2.
Proof. destruct r as [[[a|e|] p] w]; reflexivity. Qed.


Lemma fold_call_world data (l : list nat) w :
  fold_left (call data) l w
  = mkWorld (files w) (calls w ++ map (fun s => (s, data)) l).
Proof.
  pose proof (fold_call_files data l w) as Hf.
  pose proof (fold_call_calls data l w) as Hc.
  destruct (fold_left (call data) l w) as [fs cs]. simpl in *.
  subst. reflexivity.
Qed.


(** C5. With the process not alive, or with an empty command name,
    [_command] returns [None], raises nothing, writes nothing to the
    child and leaves the player and the world as they were. *)
Theorem command_noop self w name args types prefix :
  is_alive self = false \/ name = EmptyString ->
  _command self w name args types prefix = (Return None, self, w).
Proof.
  intros [H| ->]; unfold _command.
  - rewrite H. reflexivity.
  - rewrite orb_true_r. reflexivity.
Qed.

Lemma is_empty_false name : name <> EmptyString -> is_empty name = false.
Proof. destruct name; [contradiction | reflexivity]. Qed.

(** *** The line on the wire *)

Lemma concat_empty_cons a (l : list string) :
  String.concat EmptyString (a :: l) = a +:+ String.concat EmptyString l.
Proof.
  destruct l as [|b l]; simpl; [|reflexivity].
  symmetry. apply TextFacts.app_empty_r.
Qed.

Lemma join_cons_cons a b (l : list string) :
  join (a :: b :: l) = a +:+ SP +:+ join (b :: l).
Proof. reflexivity. Qed.

Lemma join_newline (xs : list string) :
  join (xs ++ [NL])
  = String.concat EmptyString (map (fun x => x +:+ SP) xs) +:+ NL.
Proof.
  induction xs as [|x xs IH]; [reflexivity|].
  rewrite map_cons, concat_empty_cons, <- app_comm_cons.
  destruct xs as [|y xs].
  - unfold join. simpl. rewrite !TextFacts.app_assoc. reflexivity.
  - rewrite <- app_comm_cons, join_cons_cons.
    rewrite app_comm_cons, IH.
    rewrite !TextFacts.app_assoc. reflexivity.
Qed.

Lemma render_spec x : render x = spec_render x.
Proof. destruct x as [|[]| | | | |]; reflexivity. Qed.

(** The list built and joined at lines 332-337 is the wire line of the
    specification. *)
Lemma build_command_wire (pre : string) name args :
  build_command pre name args = encode (wire_line pre name args).
Proof.
  unfold build_command, wire_line. f_equal.
  assert (Hmap : map (fun a => spec_render a +:+ SP) args
                 = map (fun x => x +:+ SP) (map render args)).
  { rewrite map_map. apply map_ext. intros a. rewrite render_spec.
    reflexivity. }
  case_bool_decide as Hn.
  - rewrite decide_True.
    2:{ rewrite !elem_of_cons in Hn. rewrite elem_of_nil in Hn. tauto. }
    simpl tail. rewrite app_comm_cons, join_newline, map_cons.
    rewrite concat_empty_cons, Hmap, !TextFacts.app_assoc. reflexivity.
  - rewrite decide_False.
    2:{ rewrite !elem_of_cons in Hn. rewrite elem_of_nil in Hn. tauto. }
    change ([pre; name] ++ map render args ++ [NL])%list
      with ((pre :: name :: map render args) ++ [NL])%list.
    rewrite join_newline, !map_cons, !concat_empty_cons, Hmap.
    rewrite !TextFacts.app_assoc. reflexivity.
Qed.

Lemma build_command_ascii (pre : string) name args :
  is_ascii (wire_line pre name args) = true ->
  build_command pre name args = inr (wire_line pre name args).
Proof.
  intros H. rewrite build_command_wire. apply TextFacts.decode_ascii, H.
Qed.

Lemma build_command_inr (pre : string) name args command :
  build_command pre name args = inr command ->
  command = wire_line pre name args
  /\ is_ascii (wire_line pre name args) = true.
Proof.
  rewrite build_command_wire. apply TextFacts.decode_inr.
Qed.

Lemma build_command_non_ascii (pre : string) name args :
  is_ascii (wire_line pre name args) = false ->
  exists e, build_command pre name args = inl e.
Proof.
  intros H. rewrite build_command_wire. eexists.
  apply TextFacts.decode_non_ascii, H.
Qed.

Lemma sent_stdin_write self (line : string) :
  is_alive self = true ->
  sent (stdin_write self line) = (sent self ++ [line])%list.
Proof.
  unfold is_alive, sent, stdin_write.
  destruct (_proc self) as [p|]; [reflexivity | discriminate].
Qed.

Lemma is_alive_set_stdout_lock self b :
  is_alive (set_stdout_lock self b) = is_alive self.
Proof. reflexivity. Qed.

Lemma sent_set_stdout_lock self b :
  sent (set_stdout_lock self b) = sent self.
Proof. reflexivity. Qed.

Lemma stdin_write_set_stdout_lock self b (line : string) :
  set_stdout_lock (stdin_write self line) b
  = stdin_write (set_stdout_lock self b) line.
Proof.
  destruct self as [cp a o e [p|]]; reflexivity.
Qed.

(** Taking the lock and giving it back leaves the player as it was. *)
Lemma release_acquire self b :
  _lock (_stdout self) = false ->
  set_stdout_lock (set_stdout_lock self b) false = self.
Proof.
  destruct self as [cp a [f l s] e p]. simpl. intros ->. reflexivity.
Qed.

Lemma sent_stdin_write_any self (line : string) :
  sent (stdin_write self line) = sent self
  \/ sent (stdin_write self line) = (sent self ++ [line])%list.
Proof.
  destruct self as [cp a o e [p|]]; [right|left]; reflexivity.
Qed.

(** C6. Whatever a call of [_command] writes to the child is one line:
    the prefix, the name and the arguments that are not [None], each
    followed by a single space, then a newline, with a boolean written [1]
    or [0] and any other argument by its string form.  For [quit],
    [pause] and [stop], and for no other name, the prefix is left out,
    whatever the default prefix or the prefix of the call.  That line is
    written whenever the process is alive, the name is not empty, the
    arguments pass the validation, the line is ASCII, so that [encode()]
    accepts it, and, for a getter, stdout is a pipe and the lock is free;
    a line that is not ASCII is never written. *)
Theorem command_wire_line self w name args types prefix :
  let pre := default (command_prefix self) prefix in
  let line := wire_line pre name (remaining args) in
  let after := (_command self w name args types prefix).1.2 in
  (sent after = sent self \/ sent after = (sent self ++ [line])%list)
  /\ (is_alive self = true ->
      name <> EmptyString ->
      check_types (remaining args) types = None ->
      is_ascii line = true ->
      (startswith name "get_" = true ->
       is_Some (_proc self ≫= stdout) /\ _lock (_stdout self) = false) ->
      sent after = (sent self ++ [line])%list)
  /\ (is_ascii line = false -> sent after = sent self)
  /\ (name = "quit" \/ name = "pause" \/ name = "stop" ->
      line
      = name +:+ SP
        +:+ String.concat EmptyString
              (map (fun a => spec_render a +:+ SP) (remaining args))
        +:+ NL)
  /\ (~ (name = "quit" \/ name = "pause" \/ name = "stop") ->
      line
      = pre +:+ SP +:+ name +:+ SP
        +:+ String.concat EmptyString
              (map (fun a => spec_render a +:+ SP) (remaining args))
        +:+ NL).
Proof.
  intros pre line after.
  assert (Hany : sent after = sent self
                 \/ sent after = (sent self ++ [line])%list).
  { subst after. unfold _command.
    destruct (negb (is_alive self) || is_empty name); [left; reflexivity|].
    destruct (check_types _ types); [left; reflexivity|].
    fold pre.
    destruct (build_command pre name (remaining args)) as [e|command] eqn:Hb;
      [left; reflexivity|].
    apply build_command_inr in Hb as [-> _]. fold line.
    destruct (negb (startswith name "get_")); [apply sent_stdin_write_any|].
    destruct (_proc self ≫= stdout); [|left; reflexivity].
    destruct (_lock (_stdout self)); [left; reflexivity|].
    destruct (read_answer _ _) as [res rest|e rest|]; cbn [fst snd];
      rewrite ?sent_set_stdout_lock;
      rewrite <- (sent_set_stdout_lock self true);
      apply sent_stdin_write_any. }
  split; [exact Hany|]. split; [|split; [|split]].
  - intros Halive Hname Hty Hline Hget.
    apply is_empty_false in Hname.
    subst after. unfold _command. rewrite Halive, Hname, Hty.
    cbn [negb orb]. fold pre.
    rewrite build_command_ascii by exact Hline. fold line.
    destruct (startswith name "get_") eqn:Hg; cbn [negb].
    + destruct (Hget eq_refl) as [[out Hout] Hlock].
      rewrite Hout, Hlock.
      destruct (read_answer _ _) as [res rest|e rest|]; cbn [fst snd];
        rewrite ?sent_set_stdout_lock, sent_stdin_write by exact Halive;
        reflexivity.
    + cbn [fst snd]. apply sent_stdin_write, Halive.
  - intros Hline. subst after. unfold _command.
    destruct (negb (is_alive self) || is_empty name); [reflexivity|].
    destruct (check_types _ types); [reflexivity|].
    fold pre.
    destruct (build_command_non_ascii pre name (remaining args) Hline)
      as [e ->].
    reflexivity.
  - intros Hname. subst line. unfold wire_line.
    rewrite decide_True by exact Hname. reflexivity.
  - intros Hname. subst line. unfold wire_line.
    rewrite decide_False by exact Hname. reflexivity.
Qed.

(** *** The getter exchange *)

Lemma read_answer_first key (before : list string) line after :
  Forall (fun l => is_ascii l = true) (before ++ [line]) ->
  Forall (fun l => is_answer key (rstrip isspace l) = false) before ->
  is_answer key (rstrip isspace line) = true ->
  read_answer key (before ++ line :: after)
  = Answered (rstrip isspace line) after.
Proof.
  intros Ha Hb Hl. induction Hb as [|l before Hl' _ IH]; simpl.
  - apply Forall_inv in Ha.
    rewrite TextFacts.decode_ascii by exact Ha. rewrite Hl. reflexivity.
  - simpl in Ha.
    rewrite TextFacts.decode_ascii by exact (Forall_inv Ha).
    rewrite Hl'. apply IH. exact (Forall_inv_tail Ha).
Qed.





(** *** Validation of the argument types *)

Lemma map_isinstance_zip args types :
  (length args <= length types)%nat ->
  map_isinstance args (take (length args) types)
  = inr (zip_with isinstance args types).
Proof.
  revert types. induction args as [|a args IH]; intros types Hlen.
  - reflexivity.
  - destruct types as [|t types]; simpl in Hlen; [lia|].
    simpl. rewrite IH by lia. reflexivity.
Qed.

Lemma first_False (result : list bool) (i : nat) :
  result !! i = Some false ->
  (forall j, (j < i)%nat -> result !! j = Some true) ->
  forallb id result = false /\ index_False result = i.
Proof.
  revert i. induction result as [|b r IH]; intros i Hi Hlt.
  - discriminate.
  - destruct i as [|i]; simpl in Hi.
    + injection Hi as ->. split; reflexivity.
    + assert (Hb : b = true).
      { specialize (Hlt 0%nat ltac:(lia)). simpl in Hlt. congruence. }
      subst b. simpl.
      destruct (IH i Hi) as [Hall Hidx].
      { intros j Hj. apply (Hlt (S j)). lia. }
      rewrite Hall, Hidx. split; reflexivity.
Qed.


(** C3. With a live process and a non-empty tuple of expected types that
    has a type for every remaining argument, the arguments are tested
    against their types in order, and the first argument that is not an
    instance of its type makes [_command] raise a type error naming that
    type and the position of the argument counted from one; nothing has
    been written to the child by then. *)
Theorem command_type_error self w name args types prefix
    (i : nat) (a : value) (t : pytype) :
  is_alive self = true ->
  name <> EmptyString ->
  types <> [] ->
  (length (remaining args) <= length types)%nat ->
  remaining args !! i = Some a ->
  types !! i = Some t ->
  isinstance a t = false ->
  (forall (j : nat) b u, (j < i)%nat ->
      remaining args !! j = Some b -> types !! j = Some u ->
      isinstance b u = true) ->
  _command self w name args types prefix
  = (Raise (TypeError ("expected " +:+ type_name t +:+ " for argument "
                       +:+ str_int (Z.of_nat i + 1))),
     self, w).
Proof.
  intros Halive Hname Hty Hlen Ha Ht Hbad Hgood.
  apply is_empty_false in Hname.
  unfold _command. rewrite Halive, Hname. cbn [negb orb].
  unfold check_types.
  destruct types as [|t0 types0] eqn:Heq; [contradiction|].
  rewrite <- Heq in *. clear Hty.
  rewrite map_isinstance_zip by exact Hlen.
  destruct (first_False (zip_with isinstance (remaining args) types) i)
    as [Hall Hidx].
  - rewrite lookup_zip_with, Ha, Ht. simpl. rewrite Hbad. reflexivity.
  - intros j Hj. rewrite lookup_zip_with.
    destruct (lookup_lt_is_Some_2 (remaining args) j) as [b Hb].
    { apply lookup_lt_Some in Ha. lia. }
    destruct (lookup_lt_is_Some_2 types j) as [u Hu].
    { apply lookup_lt_Some in Ht. lia. }
    rewrite Hb, Hu. simpl. rewrite (Hgood j b u Hj Hb Hu). reflexivity.
  - rewrite Hall, Hidx, Ht. reflexivity.
Qed.

(** *** Property setters *)

Lemma command_dead self w name args types prefix :
  is_alive self = false ->
  _command self w name args types prefix = (Return None, self, w).
Proof. intros H. unfold _command. rewrite H. reflexivity. Qed.

Lemma Step_init_inr (val dir : value) s :
  Step_init val dir = inr s ->
  s = mkStep val dir /\ is_None val = false /\ is_None dir = false.
Proof.
  unfold Step_init.
  destruct val, dir; simpl; intros H; try discriminate;
    injection H as <-; repeat split.
Qed.

(** A command that is not a getter, sent without expected types to a
    live process, returns [None] once its line is written. *)
Lemma command_plain self w name args :
  is_alive self = true ->
  name <> EmptyString ->
  startswith name "get_" = false ->
  is_ascii (wire_line (command_prefix self) name (remaining args)) = true ->
  _command self w name args [] None
  = (Return None,
     stdin_write self (wire_line (command_prefix self) name (remaining args)),
     w).
Proof.
  intros Halive Hname Hget Hline. apply is_empty_false in Hname.
  unfold _command. rewrite Halive, Hname, Hget.
  cbn [negb orb check_types default].
  rewrite build_command_ascii by exact Hline. reflexivity.
Qed.

Lemma wire_step_property (cp pname : string) (rest : list value) :
  wire_line cp "step_property" (VStr pname :: rest)
  = cp +:+ " step_property " +:+ pname +:+ SP
    +:+ String.concat EmptyString (map (fun a => spec_render a +:+ SP) rest)
    +:+ NL.
Proof.
  unfold wire_line. rewrite decide_False by (intros [|[|]]; discriminate).
  cbn [map spec_render str]. rewrite concat_empty_cons.
  rewrite !TextFacts.app_assoc. reflexivity.
Qed.

(** C4. For a numeric property with bounds of its own class and a value
    that is not a [Step]: a value of another class raises a type error,
    a value below the minimum or above the maximum raises a value error,
    and in each case the player and the world are as before, nothing
    having been written to the child.  A [Step] is neither tested for
    its class nor compared with the bounds: it goes out as a
    [step_property] line, and no [set_property] line is written.  The
    line is one that [encode()] accepts, as it is for the name of every
    property the introspection installs and every documented prefix. *)
Theorem propset_validation self w (pname : string) (ptype : pytype)
    (pmin pmax : option value) :
  ptype = Tint \/ ptype = Tfloat ->
  (forall b, pmin = Some b \/ pmax = Some b -> isinstance b ptype = true) ->
  (forall v, isinstance v ptype = false ->
      _propset self w (Plain v) pname ptype pmin pmax
      = (Raise (TypeError ("expected " +:+ type_name ptype)), self, w))
  /\ (forall v lo, isinstance v ptype = true ->
        pmin = Some lo -> py_lt v lo = true ->
        _propset self w (Plain v) pname ptype pmin pmax
        = (Raise (ValueError ("value must be at least " +:+ str lo)),
           self, w))
  /\ (forall v hi, isinstance v ptype = true ->
        pmax = Some hi -> py_gt v hi = true ->
        exists msg,
          _propset self w (Plain v) pname ptype pmin pmax
          = (Raise (ValueError msg), self, w))
  /\ (forall s val dir, Step_init val dir = inr s ->
        _propset self w (Stepped s) pname ptype pmin pmax
        = discard (_command self w "step_property"
                            [VStr pname; val; dir] [] None)
        /\ (is_alive self = true ->
            is_ascii (wire_line (command_prefix self) "step_property"
                                [VStr pname; val; dir]) = true ->
            _propset self w (Stepped s) pname ptype pmin pmax
            = (Return tt,
               stdin_write self
                 (wire_line (command_prefix self) "step_property"
                            [VStr pname; val; dir]),
               w))
        /\ (is_alive self = false ->
            _propset self w (Stepped s) pname ptype pmin pmax
            = (Return tt, self, w))).
Proof.
  intros _ _. split; [|split; [|split]].
  - intros v Hv. unfold _propset. rewrite Hv. reflexivity.
  - intros v lo Hv -> Hlo. unfold _propset. rewrite Hv, Hlo. reflexivity.
  - intros v hi Hv -> Hhi. unfold _propset. rewrite Hv, Hhi. cbn [negb].
    destruct pmin as [lo|]; [destruct (py_lt v lo)|]; eexists; reflexivity.
  - intros s val dir Hs.
    destruct (Step_init_inr _ _ _ Hs) as (-> & Hval & Hdir).
    split; [reflexivity|]. split.
    + intros Halive Hline. unfold _propset. cbn [_val _dir].
      assert (Hrem : remaining [VStr pname; val; dir]
                     = [VStr pname; val; dir]).
      { unfold remaining.
        rewrite !filter_cons_True by (done || reflexivity). reflexivity. }
      rewrite command_plain; rewrite ?Hrem;
        [reflexivity | exact Halive | discriminate | reflexivity
        | exact Hline].
    + intros Hdead. unfold _propset.
      rewrite command_dead by exact Hdead. reflexivity.
Qed.

(** C10. To a live process, a [Step] assigned to a boolean property is
    written as the prefix, [step_property] and the property name, and
    nothing of the step; assigned to a property of any other class it is
    written with the magnitude and the direction after the name.  Each
    line is one that [encode()] accepts, as it is for the name of every
    property the introspection installs and every documented prefix. *)
Theorem step_property_lines self w (pname : string) (ptype : pytype)
    (pmin pmax : option value) (val dir : value) (s : Step) :
  is_alive self = true ->
  Step_init val dir = inr s ->
  ptype <> Tbool ->
  let short :=
    command_prefix self +:+ " step_property " +:+ pname +:+ SP +:+ NL in
  let long :=
    command_prefix self +:+ " step_property " +:+ pname +:+ SP
    +:+ spec_render val +:+ SP +:+ spec_render dir +:+ SP +:+ NL in
  (is_ascii short = true ->
   propset_for pname Tbool pmin pmax self w (Stepped s)
   = (Return tt, stdin_write self short, w))
  /\ (is_ascii long = true ->
      propset_for pname ptype pmin pmax self w (Stepped s)
      = (Return tt, stdin_write self long, w)).
Proof.
  intros Halive Hs Hty short long.
  destruct (Step_init_inr _ _ _ Hs) as (-> & Hval & Hdir).
  assert (Hshort : wire_line (command_prefix self) "step_property"
                             (remaining [VStr pname]) = short).
  { change (remaining [VStr pname]) with [VStr pname].
    rewrite wire_step_property. reflexivity. }
  assert (Hlong : wire_line (command_prefix self) "step_property"
                            (remaining [VStr pname; val; dir]) = long).
  { unfold remaining.
    rewrite !filter_cons_True by (done || reflexivity).
    rewrite filter_nil, wire_step_property. cbn [map].
    rewrite !concat_empty_cons. simpl String.concat.
    rewrite !TextFacts.app_assoc. reflexivity. }
  split.
  - intros Hline. unfold propset_for, _propset_bool.
    rewrite command_plain; rewrite ?Hshort;
      [reflexivity | exact Halive | discriminate | reflexivity | exact Hline].
  - intros Hline.
    assert (Hset : propset_for pname ptype pmin pmax self w
                     (Stepped (mkStep val dir))
                   = _propset self w (Stepped (mkStep val dir)) pname ptype
                              pmin pmax).
    { destruct ptype; [contradiction | reflexivity..]. }
    rewrite Hset. unfold _propset. cbn [_val _dir].
    rewrite command_plain; rewrite ?Hlong;
      [reflexivity | exact Halive | discriminate | reflexivity | exact Hline].
Qed.

End Channel.

(** ** Arguments of the player and steps *)

Section ArgsAndSteps.

Context {RT : Runtime}.

(** C8. After a string is assigned to [args] the getter returns its
    [shlex.split]; after a sequence is assigned it returns the string
    form of each element; either way the stored list is the seven fixed
    tokens followed by what the getter returns. *)
Theorem args_roundtrip (self : Player) :
  (forall s toks, shlex_split s = inr toks ->
      (set_args self (ArgsStr s)).1 = Return tt
      /\ args (set_args self (ArgsStr s)).2 = toks)
  /\ (forall xs,
        (set_args self (ArgsSeq xs)).1 = Return tt
        /\ args (set_args self (ArgsSeq xs)).2 = map str xs)
  /\ (forall new,
        (set_args self new).1 = Return tt ->
        _args (set_args self new).2
        = (["-slave"; "-idle"; "-quiet"; "-input"; "nodefault-bindings";
            "-noconfig"; "all"] ++ args (set_args self new).2)%list).
Proof.
  split; [|split].
  - intros s toks Hs. unfold set_args. rewrite Hs. split; reflexivity.
  - intros xs. split; reflexivity.
  - intros [s|xs]; unfold set_args.
    + destruct (shlex_split s); [discriminate|]. reflexivity.
    + reflexivity.
Qed.

(** C9. [Step(value, direction)] raises exactly when [value] is neither
    an [int] nor a [float] instance or [direction] is not an [int]
    instance, what it raises is a type error, and booleans count as
    [int] in both positions: [Step(b1, b2)] succeeds for all booleans. *)
Theorem Step_init_accepts_bool :
  (forall b1 b2,
      Step_init (VBool b1) (VBool b2) = inr (mkStep (VBool b1) (VBool b2)))
  /\ (forall val dir,
        (exists e, Step_init val dir = inl e)
        <-> (isinstance val Tint = false /\ isinstance val Tfloat = false)
            \/ isinstance dir Tint = false)
  /\ (forall val dir e,
        Step_init val dir = inl e -> exists msg, e = TypeError msg)
  /\ (forall b, isinstance (VBool b) Tint = true).
Proof.
  split; [|split; [|split]].
  - intros b1 b2. reflexivity.
  - intros val dir. unfold Step_init.
    destruct (isinstance val Tint), (isinstance val Tfloat),
      (isinstance dir Tint); simpl;
      (split; [intros [e He]; try discriminate; auto
              | intros [[? ?]| ?]; try discriminate; eauto]).
  - intros val dir e. unfold Step_init.
    destruct (negb _); [intros [= <-]; eauto|].
    destruct (negb _); [intros [= <-]; eauto|]. discriminate.
  - reflexivity.
Qed.

End ArgsAndSteps.

(** ** The theorems at work on the sample player *)

Section Instances.

Import Sample.





Lemma command_type_error_witness :
  is_alive player = true
  /\ _command player world "seek" [VInt 10; VNone; VStr "fast"]
              [Tfloat; Tint; Tint] None
     = (Raise (TypeError "expected float for argument 1"), player, world).
Proof.
  split; [reflexivity|].
  apply (command_type_error player world "seek"
           [VInt 10; VNone; VStr "fast"] [Tfloat; Tint; Tint] None
           0%nat (VInt 10) Tfloat);
    try reflexivity; try discriminate.
  - simpl. lia.
  - intros j b u Hj. lia.
Defined.

(** The claim C3 promises, for every call with expected types, an error
    that names the expected type and the position of the first argument
    of the wrong type.  With two arguments and one expected type the
    first argument is of the wrong type, and the error is the one of
    [isinstance], which names neither. *)
Lemma command_type_error_counterexample :
  is_alive player = true
  /\ [Tint] <> []
  /\ remaining [VStr "far"; VInt 2] !! 0%nat = Some (VStr "far")
  /\ [Tint] !! 0%nat = Some Tint
  /\ isinstance (VStr "far") Tint = false
  /\ _command player world "seek" [VStr "far"; VInt 2] [Tint] None
     = (Raise (TypeError
          "isinstance() arg 2 must be a class, type, or tuple of classes and types"),
        player, world)
  /\ _command player world "seek" [VStr "far"; VInt 2] [Tint] None
     <> (Raise (TypeError "expected int for argument 1"), player, world).
Proof.
  repeat split; try reflexivity; discriminate.
Qed.

Lemma propset_validation_witness :
  _propset player world (Plain (VInt 150)) "volume" Tint
           (Some (VInt 0)) (Some (VInt 100))
  = (Raise (ValueError "value must be at most 100"), player, world)
  /\ _propset player world (Plain (VStr "loud")) "volume" Tint
              (Some (VInt 0)) (Some (VInt 100))
     = (Raise (TypeError "expected int"), player, world)
  /\ sent (_propset player world (Stepped (mkStep (VInt 150) (VInt 1)))
                    "volume" Tint (Some (VInt 0)) (Some (VInt 100))).1.2
     = ["pausing_keep_force step_property volume 150 1 " +:+ NL].
Proof.
  assert (Hty : Tint = Tint \/ Tint = Tfloat) by (left; reflexivity).
  assert (Hb : forall b : value,
             Some (VInt 0) = Some b \/ Some (VInt 100) = Some b ->
             isinstance b Tint = true).
  { intros b [[= <-]|[= <-]]; reflexivity. }
  destruct (propset_validation player world "volume" Tint
              (Some (VInt 0)) (Some (VInt 100)) Hty Hb)
    as (Htype & _ & _ & Hstep).
  split; [reflexivity|]. split.
  - apply (Htype (VStr "loud")). reflexivity.
  - destruct (Hstep (mkStep (VInt 150) (VInt 1)) (VInt 150) (VInt 1) eq_refl)
      as (_ & Hlive & _).
    rewrite (Hlive eq_refl eq_refl). reflexivity.
Defined.

Lemma command_noop_witness :
  is_alive dead = false
  /\ _command dead world "pause" [] [] None = (Return None, dead, world).
Proof.
  split; [reflexivity|].
  apply (command_noop dead world "pause" [] [] None). left. reflexivity.
Defined.

Lemma command_wire_line_witness :
  is_alive player = true
  /\ sent (_command player world "quit" [VInt 0] [] (Some "pausing")).1.2
     = ["quit 0 " +:+ NL]
  /\ sent (_command player world "loadfile" [VStr "a.ogg"; VNone; VBool true]
                    [] (Some "pausing")).1.2
     = ["pausing loadfile a.ogg 1 " +:+ NL].
Proof.
  split; [reflexivity|]. split.
  - pose proof (command_wire_line player world "quit" [VInt 0] []
                  (Some "pausing")) as H.
    cbv zeta in H. destruct H as (_ & H & _).
    rewrite H;
      [reflexivity | reflexivity | discriminate | reflexivity | reflexivity
      | discriminate].
  - pose proof (command_wire_line player world "loadfile"
                  [VStr "a.ogg"; VNone; VBool true] [] (Some "pausing")) as H.
    cbv zeta in H. destruct H as (_ & H & _).
    rewrite H;
      [reflexivity | reflexivity | discriminate | reflexivity | reflexivity
      | discriminate].
Defined.

Lemma hook_unhook_registry_witness :
  NoDup (_subscribers broadcaster)
  /\ hook broadcaster (Callable 3%nat) = (Return false, broadcaster)
  /\ count_occ Nat.eq_dec (_subscribers broadcaster) 3%nat = 1%nat
  /\ unhook broadcaster (Callable 7%nat) = (false, broadcaster).
Proof.
  assert (Hnd : NoDup (_subscribers broadcaster)).
  { compute_done. }
  split; [exact Hnd|].
  destruct (hook_unhook_registry broadcaster Hnd)
    as (_ & _ & Hin & _ & _ & Hout & _).
  destruct (Hin 3%nat) as [Hh Hc].
  { compute_done. }
  split; [exact Hh|]. split; [exact Hc|].
  apply Hout. intros f [= <-]. compute_done.
Defined.

Lemma args_roundtrip_witness :
  shlex_split "-fs -vo null" = inr ["-fs"; "-vo"; "null"]
  /\ args (set_args player (ArgsStr "-fs -vo null")).2 = ["-fs"; "-vo"; "null"]
  /\ args (set_args player (ArgsSeq [VStr "-wid"; VInt 42])).2 = ["-wid"; "42"].
Proof.
  destruct (args_roundtrip player) as (Hstr & Hseq & _).
  split; [reflexivity|]. split.
  - apply (Hstr "-fs -vo null" ["-fs"; "-vo"; "null"]). reflexivity.
  - apply (Hseq [VStr "-wid"; VInt 42]).
Defined.

Lemma Step_init_accepts_bool_witness :
  Step_init (VBool true) (VBool false)
  = inr (mkStep (VBool true) (VBool false))
  /\ exists e, Step_init (VStr "fast") (VInt 1) = inl e.
Proof.
  destruct Step_init_accepts_bool as (Hbool & Hiff & _).
  split; [apply Hbool|].
  apply Hiff. left. split; reflexivity.
Defined.

Lemma step_property_lines_witness :
  is_alive player = true
  /\ sent (propset_for "fullscreen" Tbool None None player world
                       (Stepped (mkStep (VInt 50) (VInt (-1))))).1.2
     = ["pausing_keep_force step_property fullscreen " +:+ NL]
  /\ sent (propset_for "time_pos" Tfloat (Some (@VFloat runtime 0)) None player world
                       (Stepped (mkStep (VInt 50) (VInt (-1))))).1.2
     = ["pausing_keep_force step_property time_pos 50 -1 " +:+ NL].
Proof.
  split; [reflexivity|].
  assert (Hne : Tfloat <> Tbool) by discriminate.
  split.
  - pose proof (step_property_lines player world "fullscreen" Tfloat None None
                  (VInt 50) (VInt (-1)) _ eq_refl eq_refl Hne) as H.
    cbv zeta in H. destruct H as [Hb _].
    rewrite (Hb eq_refl). reflexivity.
  - pose proof (step_property_lines player world "time_pos" Tfloat
                  (Some (@VFloat runtime 0)) None
                  (VInt 50) (VInt (-1)) _ eq_refl eq_refl Hne) as H.
    cbv zeta in H. destruct H as [_ Hn].
    rewrite (Hn eq_refl). reflexivity.
Defined.

End Instances.

(** ** More about the broadcaster *)

Section BroadcasterMore.

Implicit Types (fw : FileWrapper) (f g : nat) (l : list nat) (w : World).

Lemma list_remove_snoc f l : f ∉ l -> list_remove f (l ++ [f]) = l.
Proof.
  induction l as [|y l IH]; intros Hf; simpl.
  - rewrite decide_True by reflexivity. reflexivity.
  - apply not_elem_of_cons in Hf as [Hne Hf].
    rewrite decide_False by exact Hne. f_equal. auto.
Qed.

(** X1. Registering a callable that is not yet registered and then
    unregistering it gives back the wrapper as it was, and both calls
    answer [True]. *)
Theorem hook_unhook_roundtrip fw f :
  f ∉ _subscribers fw ->
  (hook fw (Callable f)).1 = Return true
  /\ unhook (hook fw (Callable f)).2 (Callable f) = (true, fw).
Proof.
  intros Hf. unfold hook. rewrite bool_decide_eq_false_2 by exact Hf.
  split; [reflexivity|]. cbn [negb fst snd]. unfold unhook.
  cbn [_subscribers _file _lock].
  rewrite bool_decide_eq_true_2.
  2:{ apply elem_of_app. right. apply list_elem_of_singleton. reflexivity. }
  rewrite list_remove_snoc by exact Hf. destruct fw; reflexivity.
Qed.

(** X2. Unregistering a registered subscriber and registering it again
    moves it behind all the others, whose order is kept; neither the
    stream nor the lock is touched. *)
Theorem rehook_moves_last fw f :
  NoDup (_subscribers fw) ->
  f ∈ _subscribers fw ->
  let fw' := (hook (unhook fw (Callable f)).2 (Callable f)).2 in
  _subscribers fw' = (filter (fun g => g <> f) (_subscribers fw) ++ [f])%list
  /\ _file fw' = _file fw /\ _lock fw' = _lock fw.
Proof.
  intros Hl Hf. unfold unhook. rewrite bool_decide_eq_true_2 by exact Hf.
  cbn [snd]. unfold hook. cbn [_subscribers _file _lock].
  rewrite list_remove_filter by exact Hl.
  rewrite bool_decide_eq_false_2.
  2:{ intros Hin. apply list_elem_of_filter in Hin as [Hne _]. congruence. }
  repeat split.
Qed.

Lemma publish_step fw w (f : nat) (raw : string) (rest : list string) :
  _lock fw = false -> _file fw = Some f ->
  files w !! f = Some (raw :: rest) ->
  is_ascii raw = true ->
  publish fw w
  = (Return true,
     mkWorld (<[f := rest]> (files w))
             (calls w ++ deliveries (_subscribers fw) [raw])).
Proof.
  intros Hl Hf Hw Hraw. unfold publish, readline. rewrite Hl, Hf, Hw. simpl.
  rewrite TextFacts.decode_ascii by exact Hraw.
  unfold deliveries. simpl. rewrite app_nil_r.
  destruct (is_empty (rstrip isspace raw)); simpl.
  - rewrite app_nil_r. reflexivity.
  - rewrite fold_call_world. reflexivity.
Qed.

Lemma publish_undecodable fw w (f : nat) (raw : string)
    (rest : list string) :
  _lock fw = false -> _file fw = Some f ->
  files w !! f = Some (raw :: rest) ->
  is_ascii raw = false ->
  publish fw w
  = (Raise (UnicodeDecodeError raw (first_non_ascii raw)),
     mkWorld (<[f := rest]> (files w)) (calls w)).
Proof.
  intros Hl Hf Hw Hraw. unfold publish, readline. rewrite Hl, Hf, Hw. simpl.
  rewrite TextFacts.decode_non_ascii by exact Hraw. reflexivity.
Qed.

Lemma publish_eof fw w (f : nat) :
  _file fw = Some f -> files w !! f = Some [] \/ files w !! f = None ->
  publish fw w = (Return true, w).
Proof.
  intros Hf Hw. unfold publish, readline. rewrite Hf.
  destruct (_lock fw); [reflexivity|]. simpl.
  destruct Hw as [-> | ->]; reflexivity.
Qed.

Lemma deliveries_app subs (a b : list string) :
  deliveries subs (a ++ b) = (deliveries subs a ++ deliveries subs b)%list.
Proof. unfold deliveries. apply flat_map_app. Qed.

Lemma world_eta w : mkWorld (files w) (calls w) = w.
Proof. destruct w; reflexivity. Qed.

(** X3. Answering [n] readiness events in a row on a free, attached
    wrapper whose first [n] pending lines are ASCII reads these lines, in
    order, and hands each line that is not blank to every subscriber, in
    order; past the end of the stream further events change nothing.  No
    other file object is read.  A pending line that is not ASCII ends the
    run with [UnicodeDecodeError] when its turn comes: the lines before
    it have been handed out, the line itself is lost, and the lines after
    it stay in the stream. *)
Theorem pump_delivers (n : nat) fw w (f : nat) (lines : list string) :
  _lock fw = false -> _file fw = Some f ->
  files w !! f = Some lines ->
  (Forall (fun raw => is_ascii raw = true) (take n lines) ->
   pump n fw w
   = (Return tt,
      mkWorld (<[f := drop n lines]> (files w))
              (calls w ++ deliveries (_subscribers fw) (take n lines))))
  /\ (forall before bad after,
        lines = (before ++ bad :: after)%list ->
        Forall (fun raw => is_ascii raw = true) before ->
        is_ascii bad = false ->
        (length before < n)%nat ->
        pump n fw w
        = (Raise (UnicodeDecodeError bad (first_non_ascii bad)),
           mkWorld (<[f := after]> (files w))
                   (calls w ++ deliveries (_subscribers fw) before))).
Proof.
  intros Hl Hf. revert w lines.
  induction n as [|n IH]; intros w lines Hw.
  - split.
    + intros _. simpl.
      rewrite drop_0, app_nil_r, insert_id by exact Hw.
      rewrite world_eta. reflexivity.
    + intros before bad after _ _ _ Hlen. lia.
  - destruct lines as [|raw rest].
    + split.
      * intros _. simpl pump. rewrite publish_eof with (f := f) by auto.
        destruct (IH w [] Hw) as [IHok _].
        rewrite IHok by (rewrite take_nil; constructor).
        rewrite drop_nil, take_nil. reflexivity.
      * intros [|b before] bad after Heq; discriminate.
    + pose (w1 := mkWorld (<[f := rest]> (files w))
                    (calls w ++ deliveries (_subscribers fw) [raw])).
      assert (Hw1 : files w1 !! f = Some rest)
        by (simpl; apply lookup_insert_eq).
      destruct (IH w1 rest Hw1) as [IHok IHbad].
      split.
      * intros Hall. simpl in Hall.
        simpl pump.
        rewrite (publish_step fw w f raw rest Hl Hf Hw (Forall_inv Hall)).
        fold w1. rewrite IHok by exact (Forall_inv_tail Hall).
        subst w1. cbn [files calls].
        rewrite insert_insert_eq.
        change (take (S n) (raw :: rest)) with ([raw] ++ take n rest)%list.
        rewrite deliveries_app, app_assoc. reflexivity.
      * intros [|b before] bad after Heq Hall Hbad Hlen.
        -- simpl in Heq. injection Heq as -> ->.
           simpl pump.
           rewrite (publish_undecodable fw w f bad after Hl Hf Hw Hbad).
           unfold deliveries. simpl. rewrite app_nil_r. reflexivity.
        -- simpl in Heq. injection Heq as -> ->.
           simpl pump.
           rewrite (publish_step fw w f b _ Hl Hf Hw (Forall_inv Hall)).
           fold w1.
           rewrite (IHbad before bad after eq_refl (Forall_inv_tail Hall)
                      Hbad) by (simpl in Hlen; lia).
           subst w1. cbn [files calls].
           rewrite insert_insert_eq.
           change (b :: before) with ([b] ++ before)%list.
           rewrite deliveries_app, app_assoc. reflexivity.
Qed.

End BroadcasterMore.

(** ** More about the command channel *)

Section ChannelMore.

Context {RT : Runtime}.

Implicit Types (self : Player) (w : World) (name : string)
  (args : list value) (types : list pytype) (prefix : option string).

(** X4. A getter sent to a live process whose stdout is not a pipe
    changes nothing: the command is not written to the child and nothing
    is read.  The call returns [None] at once when its line is one that
    [encode()] accepts, and raises the exception of [encode()] when it is
    not. *)
Theorem getter_without_pipe self w name args types prefix :
  is_alive self = true ->
  startswith name "get_" = true ->
  check_types (remaining args) types = None ->
  _proc self ≫= stdout = None ->
  let line :=
    wire_line (default (command_prefix self) prefix) name (remaining args) in
  (is_ascii line = true ->
   _command self w name args types prefix = (Return None, self, w))
  /\ (is_ascii line = false ->
      _command self w name args types prefix
      = (Raise (UnicodeDecodeError line (first_non_ascii line)), self, w)).
Proof.
  intros Halive Hget Hty Hout line.
  assert (Hname : is_empty name = false).
  { destruct name; [discriminate | reflexivity]. }
  split; intros Hline; unfold _command;
    rewrite Halive, Hname, Hty, Hget, Hout; cbn [negb orb];
    rewrite build_command_wire; fold line; unfold encode.
  - rewrite TextFacts.decode_ascii by exact Hline. reflexivity.
  - rewrite TextFacts.decode_non_ascii by exact Hline. reflexivity.
Qed.



Lemma map_isinstance_short args types :
  (length types < length args)%nat ->
  map_isinstance args (take (length args) types)
  = inl (TypeError
      "isinstance() arg 2 must be a class, type, or tuple of classes and types").
Proof.
  revert types. induction args as [|a args IH]; intros types Hlen.
  - simpl in Hlen. lia.
  - destruct types as [|t types]; [reflexivity|].
    simpl in Hlen. simpl. rewrite IH by lia. reflexivity.
Qed.

(** X6. With a non-empty tuple of expected types and more remaining
    arguments than types, [_command] raises a type error of [isinstance]
    whether or not the arguments match, and writes nothing to the
    child. *)
Theorem command_too_many_arguments self w name args types prefix :
  is_alive self = true ->
  name <> EmptyString ->
  types <> [] ->
  (length types < length (remaining args))%nat ->
  _command self w name args types prefix
  = (Raise (TypeError
       "isinstance() arg 2 must be a class, type, or tuple of classes and types"),
     self, w).
Proof.
  intros Halive Hname Hty Hlen. apply is_empty_false in Hname.
  unfold _command. rewrite Halive, Hname. cbn [negb orb].
  unfold check_types. destruct types as [|t0 types0] eqn:Heq; [contradiction|].
  rewrite <- Heq in *. rewrite map_isinstance_short by exact Hlen.
  reflexivity.
Qed.

Lemma map_isinstance_TypeError args types e :
  map_isinstance args types = inl e -> exists msg, e = TypeError msg.
Proof.
  revert types. induction args as [|a args IH]; intros types H.
  - discriminate.
  - destruct types as [|t types]; simpl in H.
    + injection H as <-. eauto.
    + destruct (map_isinstance args types) eqn:Hm; [|discriminate].
      injection H as <-. eauto.
Qed.

Lemma check_types_TypeError args types e :
  check_types args types = Some e ->
  (exists msg, e = TypeError msg) /\ types <> [].
Proof.
  unfold check_types. destruct types as [|t0 types0] eqn:Heq; [discriminate|].
  rewrite <- Heq. intros H. split; [|congruence].
  destruct (map_isinstance _ _) as [e'|result] eqn:Hm.
  - injection H as <-. eapply map_isinstance_TypeError, Hm.
  - destruct (negb _); [|discriminate]. injection H as <-. eauto.
Qed.

(** X8. What [_command] leaves alone: the arguments of the player, its
    default prefix, the stderr wrapper, the subscribers and the stream of
    the stdout wrapper, the liveness of the child, the log of subscriber
    calls and every file object other than the child's stdout.  At most one
    line is added to what was sent, and the lock is as before whenever the
    call comes back. *)
Theorem command_frame self w name args types prefix :
  let r := _command self w name args types prefix in
  _args r.1.2 = _args self
  /\ command_prefix r.1.2 = command_prefix self
  /\ _stderr r.1.2 = _stderr self
  /\ _subscribers (_stdout r.1.2) = _subscribers (_stdout self)
  /\ _file (_stdout r.1.2) = _file (_stdout self)
  /\ is_alive r.1.2 = is_alive self
  /\ (sent r.1.2 = sent self
      \/ exists line, sent r.1.2 = (sent self ++ [line])%list)
  /\ (r.1.1 <> Hang -> _lock (_stdout r.1.2) = _lock (_stdout self))
  /\ calls r.2 = calls w
  /\ (forall g : nat, _proc self ≫= stdout <> Some g ->
        files r.2 !! g = files w !! g).
Proof.
  intros r. subst r. unfold _command.
  destruct (negb (is_alive self) || is_empty name).
  { cbn [fst snd]. repeat split; auto. }
  destruct (check_types _ types).
  { cbn [fst snd]. repeat split; auto. }
  destruct (build_command _ _ _) as [e|command].
  { cbn [fst snd]. repeat split; auto. }
  destruct (negb (startswith name "get_")).
  { cbn [fst snd].
    destruct self as [cp a o e [p|]]; cbn; repeat split; eauto. }
  destruct (_proc self ≫= stdout) as [out|] eqn:Hout.
  2:{ cbn [fst snd]. repeat split; auto. }
  destruct (_lock (_stdout self)) eqn:Hlock.
  { cbn [fst snd]. repeat split; auto. }
  destruct (read_answer _ _) as [res rest|e rest|]; cbn [fst snd].
  - destruct self as [cp a [fl lk sb] e [p|]]; cbn in *; subst;
      try discriminate; repeat split; eauto.
    all: intros g Hg; apply lookup_insert_ne; congruence.
  - destruct self as [cp a [fl lk sb] e' [p|]]; cbn in *; subst;
      try discriminate; repeat split; eauto.
    all: intros g Hg; apply lookup_insert_ne; congruence.
  - destruct self as [cp a [fl lk sb] e [p|]]; cbn in *; subst;
      try discriminate; repeat split; eauto; try congruence.
    all: intros g Hg; apply lookup_insert_ne; congruence.
Qed.


End ChannelMore.

(** ** More about the property setters and getters *)

Section PropertiesMore.

Context {RT : Runtime}.

Variable float_of_text : string -> option float.

Implicit Types (self : Player) (w : World) (pname : string).





End PropertiesMore.

(** ** Facts about splitting, joining and decimal text *)

Module TextMoreFacts.

Import TextFacts.

Lemma split_on_absent sep s : occurs sep s = false -> split_on sep s = [s].
Proof.
  induction s as [|c s IH]; simpl; [reflexivity|].
  intros H. apply orb_false_iff in H as [Hc Hs].
  rewrite Hc, (IH Hs). reflexivity.
Qed.

Lemma split_on_app sep b t :
  occurs sep b = false ->
  split_on sep (b +:+ String sep t) = b :: split_on sep t.
Proof.
  induction b as [|c b IH]; intros H; norm_app; simpl.
  - rewrite Ascii.eqb_refl. reflexivity.
  - simpl in H. apply orb_false_iff in H as [Hc Hb].
    rewrite Hc, (IH Hb). reflexivity.
Qed.

(** Splitting undoes joining when no item holds the separator. *)
Lemma split_on_join sep (x : string) (xs : list string) :
  Forall (fun y => occurs sep y = false) (x :: xs) ->
  split_on sep (String.concat (String sep EmptyString) (x :: xs)) = x :: xs.
Proof.
  revert x. induction xs as [|y xs IH]; intros x Hall.
  - simpl. apply split_on_absent. apply (Forall_inv Hall).
  - change (String.concat (String sep EmptyString) (x :: y :: xs))
      with (x +:+ String sep EmptyString
            +:+ String.concat (String sep EmptyString) (y :: xs)).
    norm_app. rewrite split_on_app by apply (Forall_inv Hall).
    f_equal. apply IH. apply (Forall_inv_tail Hall).
Qed.

Lemma after_first_app sep b t :
  occurs sep b = false -> after_first sep (b +:+ String sep t) = t.
Proof.
  intros Hb. symmetry. apply follows_first_after.
  left. exists b. split; [reflexivity | exact Hb].
Qed.

Lemma lstrip_id P t : first_is P t = false -> lstrip P t = t.
Proof. destruct t as [|c t]; simpl; [reflexivity|]. intros ->. reflexivity. Qed.

Lemma strip_id P t :
  first_is P t = false -> last_is P t = false -> strip P t = t.
Proof.
  intros Hf Hl. unfold strip. rewrite lstrip_id by exact Hf.
  apply rstrip_id, Hl.
Qed.

Lemma last_is_app P s t :
  t <> EmptyString -> last_is P (s +:+ t) = last_is P t.
Proof.
  intros Ht. induction s as [|c s IH]; norm_app; [reflexivity|].
  destruct (s +:+ t) as [|d u] eqn:Hst.
  - destruct s; norm_app; [contradiction | discriminate].
  - exact IH.
Qed.

Lemma string_of_uint_decimal d :
  all_chars isdecimal (NilEmpty.string_of_uint d) = true.
Proof. induction d; simpl; auto. Qed.

Lemma str_int_decimal n :
  all_chars isdecimal (str_int n) = true /\ str_int n <> EmptyString.
Proof.
  unfold str_int, NilZero.string_of_int, NilZero.string_of_uint.
  destruct n as [|p|p]; simpl.
  - split; [reflexivity | discriminate].
  - pose proof (Unsigned.to_uint_nonnil p) as Hp.
    destruct (Pos.to_uint p) eqn:Hu; try contradiction;
      (split; [apply (string_of_uint_decimal (Pos.to_uint p)) || idtac
              | discriminate]);
      rewrite <- Hu at 1; try (apply string_of_uint_decimal);
      pose proof (string_of_uint_decimal (Pos.to_uint p)) as Hd;
      rewrite Hu in Hd; exact Hd.
  - pose proof (Unsigned.to_uint_nonnil p) as Hp.
    pose proof (string_of_uint_decimal (Pos.to_uint p)) as Hd.
    destruct (Pos.to_uint p) eqn:Hu; try contradiction;
      (split; [exact Hd | discriminate]).
Qed.

Lemma all_chars_first P Q t :
  all_chars Q t = true -> (forall c, Q c = true -> P c = false) ->
  first_is P t = false.
Proof.
  destruct t as [|c t]; simpl; [reflexivity|].
  intros H HQ. apply andb_true_iff in H as [Hc _]. auto.
Qed.

Lemma all_chars_last P Q t :
  all_chars Q t = true -> (forall c, Q c = true -> P c = false) ->
  last_is P t = false.
Proof.
  intros H HQ. induction t as [|c t IH]; [reflexivity|].
  simpl in H. apply andb_true_iff in H as [Hc Ht].
  destruct t as [|d t]; simpl; auto.
Qed.

Lemma decimal_not_space c : isdecimal c = true -> isspace c = false.
Proof.
  unfold isdecimal, isspace.
  destruct c as [[] [] [] [] [] [] [] []]; simpl; congruence.
Qed.

Lemma decimal_not_quote c : isdecimal c = true -> isquote c = false.
Proof.
  unfold isdecimal, isquote.
  destruct c as [[] [] [] [] [] [] [] []]; simpl; congruence.
Qed.

Lemma strip_decimal n : strip isspace (str_int n) = str_int n.
Proof.
  destruct (str_int_decimal n) as [Hdec _].
  apply strip_id;
    [eapply all_chars_first | eapply all_chars_last];
    solve [exact Hdec | apply decimal_not_space].
Qed.

Lemma decimal_ascii c : isdecimal c = true -> isascii c = true.
Proof.
  destruct c as [[] [] [] [] [] [] [] []]; vm_compute; congruence.
Qed.

Lemma all_chars_ascii P s :
  (forall c, P c = true -> isascii c = true) ->
  all_chars P s = true -> is_ascii s = true.
Proof.
  intros HP. induction s as [|c s IH]; [reflexivity|]. simpl.
  intros H. apply andb_true_iff in H as [Hc Hs].
  rewrite (HP c Hc), (IH Hs). reflexivity.
Qed.

Lemma str_int_ascii n : is_ascii (str_int n) = true.
Proof.
  eapply all_chars_ascii; [apply decimal_ascii | apply str_int_decimal].
Qed.

(** [int] reads back what [str] printed. *)
Lemma int_of_text_str_int n : int_of_text (str_int n) = Some n.
Proof.
  unfold int_of_text. rewrite strip_decimal. unfold str_int.
  assert (Hnil : Z.to_int n <> Decimal.Pos Decimal.Nil
                 /\ Z.to_int n <> Decimal.Neg Decimal.Nil).
  { destruct n as [|p|p]; simpl; split; try discriminate;
      intros [= H]; exact (Unsigned.to_uint_nonnil p H). }
  destruct Hnil as [Hp Hn].
  pose proof (NilZero.isi (Z.to_int n) Hp Hn) as Hisi.
  destruct (str_int_decimal n) as [Hdec Hne]. unfold str_int in Hdec, Hne.
  destruct (NilZero.string_of_int (Z.to_int n)) as [|a s'] eqn:Hs;
    [contradiction|].
  simpl in Hdec. apply andb_true_iff in Hdec as [Ha _].
  assert (Hplus : Ascii.eqb a "+" = false).
  { unfold isdecimal in Ha.
    destruct a as [[] [] [] [] [] [] [] []]; simpl in *; congruence. }
  rewrite Hplus, Hisi. simpl. f_equal. apply DecimalZ.of_to.
Qed.

(** [int] passes over the white space around the number. *)
Lemma int_of_text_blanks (l r : string) n :
  all_chars isspace l = true -> all_chars isspace r = true ->
  int_of_text (l +:+ str_int n +:+ r) = Some n.
Proof.
  intros Hl Hr.
  destruct (str_int_decimal n) as [Hdec _].
  assert (Hcore : str_int n = strip isspace (l +:+ str_int n +:+ r)).
  { apply stripped_of_strip. exists l, r. repeat split; try assumption.
    - eapply all_chars_first; [exact Hdec | apply decimal_not_space].
    - eapply all_chars_last; [exact Hdec | apply decimal_not_space]. }
  pose proof (int_of_text_str_int n) as Hint.
  unfold int_of_text in *. rewrite <- Hcore.
  rewrite strip_decimal in Hint. exact Hint.
Qed.

End TextMoreFacts.

(** ** More about the property getters *)

Section GettersMore.

Context {RT : Runtime}.

Variable float_of_text : string -> option float.

Implicit Types (self : Player) (w : World) (pname : string).

(** The exchange of [get_property], as the three getters run it. *)
Lemma get_property_run self w pname (out : nat) (before : list string)
    (line : string) (after : list string) :
  is_alive self = true ->
  _proc self ≫= stdout = Some out ->
  _lock (_stdout self) = false ->
  files w !! out = Some (before ++ line :: after)%list ->
  is_ascii (command_prefix self +:+ " get_property " +:+ pname +:+ SP +:+ NL)
  = true ->
  Forall (fun l => is_ascii l = true) (before ++ [line]) ->
  Forall (fun l => is_answer ("ANS_" +:+ pname) (rstrip isspace l) = false)
         before ->
  is_answer ("ANS_" +:+ pname) (rstrip isspace line) = true ->
  _command self w "get_property" [VStr pname] [] None
  = (Return (answer (rstrip isspace line)),
     stdin_write self
       (command_prefix self +:+ " get_property " +:+ pname +:+ SP +:+ NL),
     mkWorld (<[out := after]> (files w)) (calls w)).
Proof.
  intros Halive Hout Hlock Hfile Hcommand Hascii Hbefore Hline.
  assert (Hwire : wire_line (command_prefix self) "get_property"
                            [VStr pname]
                  = command_prefix self +:+ " get_property " +:+ pname
                    +:+ SP +:+ NL).
  { unfold wire_line. rewrite decide_False by (intros [|[|]]; discriminate).
    cbn [map]. rewrite !concat_empty_cons. simpl String.concat.
    rewrite !TextFacts.app_assoc. reflexivity. }
  unfold _command.
  rewrite Halive, Hout, Hlock, Hfile.
  cbn [negb orb is_empty check_types startswith Ascii.eqb Bool.eqb
       default from_option id].
  change (remaining [VStr pname]) with [VStr pname].
  cbn [head from_option str].
  rewrite (read_answer_first _ before line after Hascii Hbefore Hline).
  rewrite build_command_ascii by (rewrite Hwire; exact Hcommand).
  rewrite stdin_write_set_stdout_lock.
  rewrite release_acquire by exact Hlock.
  rewrite Hwire. reflexivity.
Qed.


Lemma dict_of_snoc (pairs : list (string * string)) k v :
  dict_of (pairs ++ [(k, v)]) = <[k := v]> (dict_of pairs).
Proof. unfold dict_of. rewrite foldl_app. reflexivity. Qed.

Lemma evens_cons2 {A} (x y : A) (l : list A) :
  evens (x :: y :: l) = x :: evens l.
Proof. reflexivity. Qed.

Lemma odds_cons2 {A} (x y : A) (l : list A) :
  odds (x :: y :: l) = y :: odds l.
Proof. destruct l; reflexivity. Qed.

Lemma evens_flatten (pairs : list (string * string)) (tail : list string) :
  (length tail <= 1)%nat ->
  evens (flat_map (fun kv => [kv.1; kv.2]) pairs ++ tail)
  = (map fst pairs ++ tail)%list
  /\ odds (flat_map (fun kv => [kv.1; kv.2]) pairs ++ tail) = map snd pairs.
Proof.
  intros Htail. induction pairs as [|[k v] pairs [IHe IHo]].
  - destruct tail as [|t [|u tail]]; simpl in *; try lia; split; reflexivity.
  - cbn [flat_map fst snd map]. rewrite <- !app_assoc. cbn [app].
    rewrite evens_cons2, odds_cons2, IHe, IHo. split; reflexivity.
Qed.

Lemma zip_fst_snd (pairs : list (string * string)) (tail : list string) :
  zip (map fst pairs ++ tail) (map snd pairs) = pairs.
Proof.
  induction pairs as [|[k v] pairs IH]; simpl.
  - destruct tail; reflexivity.
  - f_equal. exact IH.
Qed.

(** X14. The answer of a string-list property is read as alternating
    keys and values: for keys and values free of commas, the text
    [k1,v1,...,kn,vn] becomes the dict of these pairs, and a key left
    without a value at the end is dropped.  In that dict a later pair
    replaces an earlier one with the same key, a key that was not sent is
    absent, and with distinct keys every pair is found. *)
Theorem metadata_pairs (pairs : list (string * string))
    (tail : list string) :
  Forall (fun kv => occurs "," kv.1 = false /\ occurs "," kv.2 = false)
         pairs ->
  Forall (fun k => occurs "," k = false) tail ->
  (length tail <= 1)%nat ->
  metadata (String.concat ","
              (flat_map (fun kv => [kv.1; kv.2]) pairs ++ tail))
  = dict_of pairs
  /\ (forall k v, dict_of (pairs ++ [(k, v)]) !! k = Some v)
  /\ (forall k, k ∉ map fst pairs -> dict_of pairs !! k = None)
  /\ (NoDup (map fst pairs) ->
      forall k v, (k, v) ∈ pairs -> dict_of pairs !! k = Some v).
Proof.
  intros Hpairs Htail Hlen. split; [|split; [|split]].
  - unfold metadata.
    assert (Hitems : Forall (fun y => occurs "," y = false)
              (flat_map (fun kv => [kv.1; kv.2]) pairs ++ tail)).
    { apply Forall_app. split; [|exact Htail].
      clear -Hpairs. induction Hpairs as [|[k v] pairs [Hk Hv] _ IH]; simpl.
      - constructor.
      - repeat constructor; assumption. }
    destruct (evens_flatten pairs tail Hlen) as [He Ho].
    destruct (flat_map (fun kv => [kv.1; kv.2]) pairs ++ tail)%list
      as [|x xs] eqn:Hx.
    + destruct pairs as [|[k v] pairs]; [|discriminate]. reflexivity.
    + rewrite (TextMoreFacts.split_on_join "," x xs Hitems).
      rewrite He, Ho, zip_fst_snd. reflexivity.
  - intros k v. rewrite dict_of_snoc. apply lookup_insert_eq.
  - intros k. clear. induction pairs as [|[k' v'] pairs IH] using rev_ind.
    + intros _. apply lookup_empty.
    + rewrite map_app, dict_of_snoc. simpl. intros Hk.
      apply not_elem_of_app in Hk as [Hk Hne].
      rewrite lookup_insert_ne; [auto|].
      intros ->. apply Hne. apply list_elem_of_singleton. reflexivity.
  - clear. induction pairs as [|[k' v'] pairs IH] using rev_ind.
    + intros _ k v Hin. apply elem_of_nil in Hin. contradiction.
    + rewrite map_app. simpl. intros Hnd k v Hin.
      apply NoDup_app in Hnd as (Hnd & Hdis & _).
      rewrite dict_of_snoc.
      apply elem_of_app in Hin as [Hin|Hin].
      * rewrite lookup_insert_ne; [auto|].
        intros ->. apply (Hdis k).
        -- apply list_elem_of_fmap. exists (k, v). split; [reflexivity | exact Hin].
        -- apply list_elem_of_singleton. reflexivity.
      * apply list_elem_of_singleton in Hin. injection Hin as -> ->.
        apply lookup_insert_eq.
Qed.

(** X15. Reading an integer property undoes writing it: when the child
    answers [ANS_name=] followed by the decimal text that [set_property]
    sends for the integer [n], with or without white space around the
    number, after lines that are ASCII and no answer, [_propget] returns
    [n], the command line being one that [encode()] accepts. *)
Theorem propget_int_roundtrip self w pname (out : nat)
    (before after : list string) (n : Z) (blanks : string) :
  is_alive self = true ->
  _proc self ≫= stdout = Some out ->
  _lock (_stdout self) = false ->
  occurs "=" pname = false ->
  all_chars isspace blanks = true ->
  files w !! out
  = Some (before
          ++ ("ANS_" +:+ pname +:+ "=" +:+ blanks +:+ render (VInt n) +:+ NL)
             :: after)%list ->
  let command :=
    command_prefix self +:+ " get_property " +:+ pname +:+ SP +:+ NL in
  is_ascii command = true ->
  Forall (fun l => is_ascii l = true) before ->
  Forall (fun l => is_answer ("ANS_" +:+ pname) (rstrip isspace l) = false)
         before ->
  _propget float_of_text self w pname Tint
  = (Return (Some (VInt n)), stdin_write self command,
     mkWorld (<[out := after]> (files w)) (calls w)).
Proof.
  intros Halive Hout Hlock Hname Hblanks Hfile command Hcommand Hascii
    Hbefore.
  cbn [render str] in Hfile.
  destruct (TextMoreFacts.str_int_decimal n) as [Hdec Hne].
  assert (Hpname : is_ascii pname = true).
  { subst command. rewrite !TextFacts.is_ascii_app in Hcommand.
    repeat (apply andb_true_iff in Hcommand as [? Hcommand]).
    assumption. }
  assert (Hblank_ascii : is_ascii blanks = true).
  { eapply TextMoreFacts.all_chars_ascii; [|exact Hblanks].
    intros c.
    destruct c as [[] [] [] [] [] [] [] []]; vm_compute; congruence. }
  set (line := "ANS_" +:+ pname +:+ "=" +:+ blanks +:+ str_int n) in *.
  assert (Hraw : "ANS_" +:+ pname +:+ "=" +:+ blanks +:+ str_int n +:+ NL
                 = line +:+ NL).
  { subst line. rewrite !TextFacts.app_assoc. reflexivity. }
  rewrite Hraw in Hfile.
  assert (Hline_ascii : is_ascii (line +:+ NL) = true).
  { subst line. rewrite !TextFacts.is_ascii_app.
    rewrite Hpname, Hblank_ascii, TextMoreFacts.str_int_ascii. reflexivity. }
  assert (Hstrip : rstrip isspace (line +:+ NL) = line).
  { rewrite TextFacts.rstrip_app by reflexivity.
    apply TextFacts.rstrip_id. subst line.
    replace ("ANS_" +:+ pname +:+ "=" +:+ blanks +:+ str_int n)
      with (("ANS_" +:+ pname +:+ "=" +:+ blanks) +:+ str_int n)
      by (rewrite !TextFacts.app_assoc; reflexivity).
    rewrite TextMoreFacts.last_is_app by exact Hne.
    eapply TextMoreFacts.all_chars_last;
      [exact Hdec | apply TextMoreFacts.decimal_not_space]. }
  assert (Hafter : after_first "=" line = blanks +:+ str_int n).
  { subst line.
    replace ("ANS_" +:+ pname +:+ "=" +:+ blanks +:+ str_int n)
      with (("ANS_" +:+ pname) +:+ String "=" (blanks +:+ str_int n))
      by (rewrite !TextFacts.app_assoc; reflexivity).
    apply TextMoreFacts.after_first_app. exact Hname. }
  assert (Hquote : forall c, isspace c = true -> isquote c = false).
  { intros c. unfold isspace, isquote.
    destruct c as [[] [] [] [] [] [] [] []]; simpl; congruence. }
  assert (Hans : answer line = Some (blanks +:+ str_int n)).
  { unfold answer. rewrite Hafter.
    assert (Hstay : strip isquote (blanks +:+ str_int n)
                    = blanks +:+ str_int n).
    { apply TextMoreFacts.strip_id.
      - destruct blanks as [|c blanks'].
        + eapply TextMoreFacts.all_chars_first;
            [exact Hdec | apply TextMoreFacts.decimal_not_quote].
        + simpl in Hblanks. apply andb_true_iff in Hblanks as [Hc _].
          simpl. apply Hquote, Hc.
      - rewrite TextMoreFacts.last_is_app by exact Hne.
        eapply TextMoreFacts.all_chars_last;
          [exact Hdec | apply TextMoreFacts.decimal_not_quote]. }
    rewrite Hstay.
    rewrite bool_decide_eq_false_2; [reflexivity|].
    rewrite !elem_of_cons, elem_of_nil.
    assert (Hlast : last_is isdecimal (blanks +:+ str_int n) = true).
    { rewrite TextMoreFacts.last_is_app by exact Hne.
      clear -Hdec Hne. induction (str_int n) as [|c t IH]; [contradiction|].
      simpl in Hdec. apply andb_true_iff in Hdec as [Hc Ht].
      destruct t as [|d t]; [exact Hc|]. apply IH; [exact Ht | discriminate]. }
    intros [H|[H|[H|[]]]]; rewrite H in Hlast; discriminate. }
  unfold _propget.
  rewrite (get_property_run self w pname out before (line +:+ NL) after
             Halive Hout Hlock Hfile Hcommand).
  2:{ apply Forall_app. split; [exact Hascii|].
      constructor; [exact Hline_ascii | constructor]. }
  2:{ exact Hbefore. }
  2:{ rewrite Hstrip. subst line. unfold is_answer.
      rewrite <- TextFacts.app_assoc, TextFacts.startswith_app. reflexivity. }
  rewrite Hstrip, Hans. cbn [convert].
  replace (blanks +:+ str_int n) with (blanks +:+ str_int n +:+ EmptyString)
    by (rewrite TextFacts.app_empty_r; reflexivity).
  rewrite TextMoreFacts.int_of_text_blanks by (exact Hblanks || reflexivity).
  reflexivity.
Qed.

End GettersMore.

(** ** The life cycle of the child *)

Section LifeCycle.

Context {RT : Runtime}.

Implicit Types (self : Player) (w : World).

Lemma wire_quit (cp : string) (retcode : value) :
  wire_line cp "quit" (remaining [retcode])
  = "quit " +:+ (if is_None retcode then EmptyString
                 else spec_render retcode +:+ SP) +:+ NL.
Proof.
  unfold wire_line. rewrite decide_True by (left; reflexivity).
  unfold remaining. destruct retcode; reflexivity.
Qed.

Lemma wire_quit_ascii (cp : string) (retcode : value) :
  is_ascii (spec_render retcode) = true ->
  is_ascii (wire_line cp "quit" (remaining [retcode])) = true.
Proof.
  intros H. rewrite wire_quit, !TextFacts.is_ascii_app.
  destruct (is_None retcode); [reflexivity|].
  rewrite TextFacts.is_ascii_app, H. reflexivity.
Qed.

Lemma quit_run self w (retcode : value) (status : Z) :
  is_alive self = true ->
  is_ascii (spec_render retcode) = true ->
  quit self w retcode (Some status)
  = (Return (Some status), stopped self retcode status, w).
Proof.
  intros Halive Hcode. unfold quit. rewrite Halive. cbn [negb].
  rewrite command_plain;
    [| exact Halive | discriminate | reflexivity
     | apply wire_quit_ascii, Hcode].
  unfold stopped. rewrite wire_quit. reflexivity.
Qed.

Lemma stopped_dead self retcode status :
  is_alive self = true -> is_alive (stopped self retcode status) = false.
Proof.
  unfold stopped, waited, stdin_write, is_alive. cbn.
  destruct (_proc self); [reflexivity | discriminate].
Qed.

(** X16. [quit] on a live player, with a return code that prints in
    ASCII as every number does, writes the one line [quit], followed by
    the return code unless it is [None], with no prefix whatever the
    default prefix is; it returns the exit status of the child, after
    which the player is no longer alive and both wrappers are detached
    from their streams.  The subscribers and the arguments are kept, and
    [quit] itself reads nothing. *)
Theorem quit_stops_the_child self w (retcode : value) (status : Z) :
  is_alive self = true ->
  is_ascii (spec_render retcode) = true ->
  let r := quit self w retcode (Some status) in
  r.1.1 = Return (Some status)
  /\ sent r.1.2
     = (sent self
        ++ ["quit " +:+ (if is_None retcode then EmptyString
                         else spec_render retcode +:+ SP) +:+ NL])%list
  /\ is_alive r.1.2 = false
  /\ _file (_stdout r.1.2) = None
  /\ _file (_stderr r.1.2) = None
  /\ _subscribers (_stdout r.1.2) = _subscribers (_stdout self)
  /\ _subscribers (_stderr r.1.2) = _subscribers (_stderr self)
  /\ _args r.1.2 = _args self
  /\ r.2 = w.
Proof.
  intros Halive Hcode r. subst r. rewrite quit_run by assumption.
  cbn [fst snd].
  split; [reflexivity|].
  split.
  { unfold stopped, waited, stdin_write, sent, is_alive in *. cbn.
    destruct (_proc self); [reflexivity | discriminate]. }
  split; [apply stopped_dead, Halive|].
  unfold stopped, waited, stdin_write, is_alive in *. cbn.
  destruct (_proc self); [|discriminate]. repeat split.
Qed.

(** X17. Once [quit] has returned, as it does for a return code that
    prints in ASCII, the player is inert: [publish] on either wrapper
    reads nothing and calls nobody, every command is a no-op that returns
    [None], and a second [quit] returns [None] without writing
    anything. *)
Theorem after_quit_inert self w (retcode : value) (status : Z) :
  is_alive self = true ->
  is_ascii (spec_render retcode) = true ->
  let gone := (quit self w retcode (Some status)).1.2 in
  forall w',
    publish (_stdout gone) w' = (Return true, w')
    /\ publish (_stderr gone) w' = (Return true, w')
    /\ (forall name args types prefix,
          _command gone w' name args types prefix = (Return None, gone, w'))
    /\ (forall retcode' exit',
          quit gone w' retcode' exit' = (Return None, gone, w')).
Proof.
  intros Halive Hcode gone w'. subst gone. rewrite quit_run by assumption.
  cbn [fst snd]. pose proof (stopped_dead self retcode status Halive) as Hdead.
  assert (Hout : _file (_stdout (stopped self retcode status)) = None).
  { unfold stopped, waited, stdin_write. cbn. destruct (_proc self); reflexivity. }
  assert (Herr : _file (_stderr (stopped self retcode status)) = None).
  { unfold stopped, waited, stdin_write. cbn. destruct (_proc self); reflexivity. }
  repeat split.
  - unfold publish. rewrite Hout, orb_true_r. reflexivity.
  - unfold publish. rewrite Herr, orb_true_r. reflexivity.
  - intros. apply command_dead, Hdead.
  - intros. unfold quit. rewrite Hdead. reflexivity.
Qed.

Lemma spawn_run (path : string) (popen : list string -> option Popen)
    self (proc : Popen) :
  is_alive self = false ->
  popen (path :: _args self) = Some proc ->
  spawn path popen self
  = inr (mkPlayer (command_prefix self) (_args self)
           (mkFileWrapper (stdout proc) (_lock (_stdout self))
                          (_subscribers (_stdout self)))
           (mkFileWrapper (stderr proc) (_lock (_stderr self))
                          (_subscribers (_stderr self)))
           (Some proc)).
Proof. intros Hdead Hp. unfold spawn. rewrite Hdead, Hp. reflexivity. Qed.

(** [spawn] on a live player, on a failing launch and on a successful
    one. *)
Lemma spawn_attaches (path : string)
    (popen : list string -> option Popen) self :
  (is_alive self = true -> spawn path popen self = inr self)
  /\ (is_alive self = false -> popen (path :: _args self) = None ->
      spawn path popen self = inl OSError)
  /\ (forall proc,
        is_alive self = false ->
        popen (path :: _args self) = Some proc ->
        exists self',
          spawn path popen self = inr self'
          /\ _proc self' = Some proc
          /\ is_alive self' = bool_decide (returncode proc = None)
          /\ _file (_stdout self') = stdout proc
          /\ _file (_stderr self') = stderr proc
          /\ _subscribers (_stdout self') = _subscribers (_stdout self)
          /\ _subscribers (_stderr self') = _subscribers (_stderr self)
          /\ _args self' = _args self).
Proof.
  split; [|split].
  - intros H. unfold spawn. rewrite H. reflexivity.
  - intros H Hp. unfold spawn. rewrite H, Hp. reflexivity.
  - intros proc H Hp. eexists. split; [apply spawn_run; eassumption|].
    repeat split.
Qed.

(** X18. Subscriptions outlive a restart: after [quit] and a [spawn]
    that starts a new child with a piped stdout, the stdout wrapper has
    the subscribers it had before, and the next line of the new stream,
    when it is ASCII, is read and handed to each of them unless it is
    blank. *)
Theorem restart_keeps_subscribers self w (retcode : value) (status : Z)
    (path : string) (popen : list string -> option Popen) (proc : Popen)
    (f : nat) :
  is_alive self = true ->
  is_ascii (spec_render retcode) = true ->
  _lock (_stdout self) = false ->
  popen (path :: _args self) = Some proc ->
  stdout proc = Some f ->
  exists again,
    spawn path popen (quit self w retcode (Some status)).1.2 = inr again
    /\ _subscribers (_stdout again) = _subscribers (_stdout self)
    /\ forall w' raw rest,
         files w' !! f = Some (raw :: rest) ->
         is_ascii raw = true ->
         publish (_stdout again) w'
         = (Return true,
            mkWorld (<[f := rest]> (files w'))
              (calls w' ++ deliveries (_subscribers (_stdout self)) [raw])).
Proof.
  intros Halive Hcode Hlock Hp Hf. rewrite quit_run by assumption.
  cbn [fst snd].
  pose proof (stopped_dead self retcode status Halive) as Hdead.
  assert (Hargs : _args (stopped self retcode status) = _args self).
  { unfold stopped, waited, stdin_write. cbn. destruct (_proc self); reflexivity. }
  assert (Hsubs : _subscribers (_stdout (stopped self retcode status))
                  = _subscribers (_stdout self)).
  { unfold stopped, waited, stdin_write. cbn. destruct (_proc self); reflexivity. }
  assert (Hlk : _lock (_stdout (stopped self retcode status)) = false).
  { unfold stopped, waited, stdin_write. cbn.
    destruct (_proc self); exact Hlock. }
  eexists. split.
  { apply spawn_run; [exact Hdead | rewrite Hargs; exact Hp]. }
  cbn [_stdout _subscribers]. split; [exact Hsubs|].
  intros w' raw rest Hw Hraw.
  rewrite (publish_step _ w' f raw rest); cbn [_lock _file _subscribers calls];
    try assumption.
  rewrite Hsubs. reflexivity.
Qed.

(** X19. A player built with [autospawn] off has no child: it is not
    alive, has no subscriber, and until [spawn] is called every command
    and [quit] return [None] and [publish] does nothing.  Its arguments
    are the seven fixed tokens followed by the ones given. *)
Theorem init_without_autospawn (prefix path : string)
    (popen : list string -> option Popen) (new : args_value) (p : Player) :
  Player_init prefix path popen new false = inr p ->
  is_alive p = false
  /\ _subscribers (_stdout p) = [] /\ _subscribers (_stderr p) = []
  /\ _args p = (fixed_args ++ args p)%list
  /\ (forall w name args types pre,
        _command p w name args types pre = (Return None, p, w))
  /\ (forall w retcode exit, quit p w retcode exit = (Return None, p, w))
  /\ (forall w, publish (_stdout p) w = (Return true, w)
                /\ publish (_stderr p) w = (Return true, w)).
Proof.
  unfold Player_init, set_args. intros H.
  assert (Hp : exists a, p = mkPlayer prefix (fixed_args ++ a) FileWrapper_init
                             FileWrapper_init None).
  { destruct new as [s|xs].
    - destruct (shlex_split s); [discriminate|]. injection H as <-. eauto.
    - injection H as <-. eauto. }
  destruct Hp as [a ->]. repeat split.
Qed.

(** X20. [player.args += extra] appends the string forms of [extra] to
    the arguments the getter returned; the seven fixed tokens stay in
    front and are not repeated. *)
Theorem args_extend_appends self (extra : list value) :
  (args_extend self extra).1 = Return tt
  /\ args (args_extend self extra).2 = (args self ++ map str extra)%list
  /\ _args (args_extend self extra).2
     = (fixed_args ++ args self ++ map str extra)%list.
Proof.
  unfold args_extend, set_args. cbn [fst snd _args].
  assert (Hmap : map str (map VStr (args self) ++ extra)
                 = (args self ++ map str extra)%list).
  { rewrite map_app, map_map. f_equal. apply map_id. }
  rewrite Hmap. repeat split.
Qed.

End LifeCycle.

(** ** Facts about replacing and slicing text *)

Module SliceFacts.

Import TextFacts.

Lemma occurs_app sep a b :
  occurs sep (a +:+ b) = occurs sep a || occurs sep b.
Proof.
  induction a as [|c a IH]; norm_app; simpl; [reflexivity|].
  rewrite IH. apply orb_assoc.
Qed.

Lemma all_chars_absent Q sep s :
  all_chars Q s = true -> Q sep = false -> occurs sep s = false.
Proof.
  intros Hs Hsep. induction s as [|c s IH]; [reflexivity|].
  simpl in *. apply andb_true_iff in Hs as [Hc Hs]. rewrite (IH Hs).
  destruct (Ascii.eqb c sep) eqn:He; [|reflexivity].
  apply Ascii.eqb_eq in He. congruence.
Qed.

Lemma str_int_no sep n : isdecimal sep = false -> occurs sep (str_int n) = false.
Proof.
  intros Hsep. eapply all_chars_absent; [|exact Hsep].
  apply TextMoreFacts.str_int_decimal.
Qed.

Lemma type_name_no_equal t : occurs "=" (type_name t) = false.
Proof. destruct t; reflexivity. Qed.

Lemma type_name_no_comma t : occurs "," (type_name t) = false.
Proof. destruct t; reflexivity. Qed.

(** [replace] copies text that has no [=] ... *)
Lemma replace_pass b s :
  occurs "=" b = false ->
  replace_from 0 "=None" EmptyString (b +:+ s)
  = b +:+ replace_from 0 "=None" EmptyString s.
Proof.
  induction b as [|c b IH]; intros Hb; norm_app; [reflexivity|].
  simpl in Hb. apply orb_false_iff in Hb as [Hc Hb].
  cbn [replace_from startswith]. rewrite Ascii.eqb_sym, Hc.
  rewrite (IH Hb). reflexivity.
Qed.

(** ... and drops each [=None]. *)
Lemma replace_hit s :
  replace_from 0 "=None" EmptyString ("=None" +:+ s)
  = replace_from 0 "=None" EmptyString s.
Proof. reflexivity. Qed.

Lemma endswith_app a b : endswith (a +:+ b) b = true.
Proof.
  induction a as [|c a IH]; norm_app.
  - destruct b; cbn [endswith]; rewrite String.eqb_refl; reflexivity.
  - cbn [endswith]. rewrite IH. apply orb_true_r.
Qed.

Lemma substring_prefix a b :
  String.substring 0 (String.length a) (a +:+ b) = a.
Proof.
  induction a as [|c a IH]; norm_app; simpl.
  - destruct b; reflexivity.
  - f_equal. exact IH.
Qed.

Lemma length_snoc a c :
  String.length (a +:+ String c EmptyString) = S (String.length a).
Proof.
  induction a as [|d a IH]; norm_app; simpl; [reflexivity|].
  f_equal. exact IH.
Qed.

Lemma endswith_absent c s suffix :
  occurs c suffix = true -> occurs c s = false -> endswith s suffix = false.
Proof.
  intros Hsuf. induction s as [|d s IH]; intros Hs.
  - cbn [endswith]. rewrite orb_false_r.
    apply String.eqb_neq. intros <-. simpl in Hsuf. discriminate.
  - cbn [endswith]. simpl in Hs. apply orb_false_iff in Hs as [Hd Hs'].
    rewrite (IH Hs'), orb_false_r.
    apply String.eqb_neq. intros <-. simpl in Hsuf.
    rewrite Hd, Hs' in Hsuf. discriminate.
Qed.

(** The text between the parentheses. *)
Lemma substring_parens inner :
  String.substring 1 (String.length ("(" +:+ inner +:+ ")") - 2)
                   ("(" +:+ inner +:+ ")")
  = inner.
Proof.
  norm_app. cbn [String.length]. rewrite length_snoc.
  replace (S (S (String.length inner)) - 2)%nat with (String.length inner)
    by lia.
  cbn [String.substring]. apply substring_prefix.
Qed.

End SliceFacts.

(** ** The introspection *)

Section Introspection.

Context {RT : Runtime}.

Variable float_of_text : string -> option float.

Implicit Types (self : Player) (w : World) (ds : list (bool * pytype)).

Lemma sig_entry_describes (i : nat) (arg : string) (d : bool * pytype) :
  describes arg d -> sig_entry i arg = inr (sig_text i d, type_name d.2).
Proof.
  destruct d as [[|] t]. all: intros [Hopt Hty]; cbn [fst snd] in *.
  all: unfold sig_entry, sig_text; rewrite Hopt, ?Hty; cbn [fst snd];
    rewrite ?Hty; reflexivity.
Qed.

Lemma sig_entries_describes (i : nat) (args : list string) ds :
  Forall2 describes args ds ->
  sig_entries i args
  = inr (zip (numbered sig_text i ds) (map (fun d => type_name d.2) ds)).
Proof.
  intros H. revert i. induction H as [|arg d args ds Hd _ IH]; intros i.
  - reflexivity.
  - simpl. rewrite (sig_entry_describes i arg d Hd), IH. reflexivity.
Qed.

Lemma numbered_length (text : nat -> bool * pytype -> string) (i : nat) ds :
  length (numbered text i ds) = length ds.
Proof. revert i. induction ds; intros i; simpl; auto. Qed.

Lemma replace_numbered (i : nat) ds :
  replace_from 0 "=None" EmptyString
    (String.concat EmptyString (numbered sig_text i ds))
  = String.concat EmptyString (numbered param_text i ds).
Proof.
  revert i. induction ds as [|[opt t] ds IH]; intros i; [reflexivity|].
  cbn [numbered]. rewrite !concat_empty_cons.
  pose proof (IH (S i)) as IH'.
  set (rest := String.concat EmptyString (numbered sig_text (S i) ds)) in *.
  set (prest := String.concat EmptyString (numbered param_text (S i) ds))
    in *.
  clearbody rest prest. clear IH.
  unfold sig_text, param_text. cbn [fst snd].
  assert (Hhead : occurs "=" (type_name t +:+ str_int (Z.of_nat i)) = false).
  { rewrite SliceFacts.occurs_app, SliceFacts.type_name_no_equal.
    apply SliceFacts.str_int_no. reflexivity. }
  rewrite !TextFacts.app_assoc.
  rewrite <- !(TextFacts.app_assoc (type_name t) (str_int (Z.of_nat i))).
  rewrite SliceFacts.replace_pass by exact Hhead. f_equal.
  destruct opt.
  - change ("=None," +:+ rest) with ("=None" +:+ "," +:+ rest).
    rewrite SliceFacts.replace_hit.
    rewrite (SliceFacts.replace_pass "," rest) by reflexivity.
    rewrite IH'. reflexivity.
  - rewrite (SliceFacts.replace_pass "," rest) by reflexivity.
    rewrite IH'. reflexivity.
Qed.

Lemma gen_func_sig_run (args : list string) ds :
  Forall2 describes args ds ->
  _gen_func_sig args
  = inr (mkMethod
           (String.concat EmptyString (numbered sig_text 0 ds))
           (String.concat EmptyString (numbered param_text 0 ds))
           ("(" +:+ String.concat "," (map (fun d => type_name d.2) ds)
            +:+ ")")).
Proof.
  intros H. unfold _gen_func_sig.
  rewrite (sig_entries_describes 0 args ds H).
  rewrite fst_zip, snd_zip
    by (rewrite numbered_length, length_map; reflexivity).
  unfold replace. rewrite replace_numbered. reflexivity.
Qed.

(** X21. For a command whose argument tokens all name known types,
    [_gen_func_sig] returns three texts: the signature, one entry per
    argument made of the class name and the position counted from 0, with
    [=None] after each optional one; the parameters, which are the
    signature with every [=None] removed; and the types, the class names
    separated by commas between parentheses. *)
Theorem gen_func_sig_texts (args : list string) ds :
  Forall2 describes args ds ->
  exists m,
    _gen_func_sig args = inr m
    /\ m_sig m = String.concat EmptyString (numbered sig_text 0 ds)
    /\ m_params m = String.concat EmptyString (numbered param_text 0 ds)
    /\ m_types m
       = "(" +:+ String.concat "," (map (fun d => type_name d.2) ds) +:+ ")".
Proof.
  intros H. eexists. split; [apply gen_func_sig_run, H|]. repeat split.
Qed.

Lemma eval_types_one (t : pytype) :
  eval_types ("(" +:+ type_name t +:+ ")") = Some (TypesClass t).
Proof. destruct t; reflexivity. Qed.

Lemma entry_head_no (c : ascii) (i : nat) (t : pytype) :
  isdecimal c = false -> occurs c (type_name t) = false ->
  occurs c (type_name t +:+ str_int (Z.of_nat i)) = false.
Proof.
  intros Hc Ht. rewrite SliceFacts.occurs_app, Ht.
  apply SliceFacts.str_int_no, Hc.
Qed.

Lemma split_signature (i : nat) ds :
  split_on "," (String.concat EmptyString (numbered sig_text i ds))
  = (numbered entry_text i ds ++ [EmptyString])%list.
Proof.
  revert i. induction ds as [|[opt t] ds IH]; intros i; [reflexivity|].
  cbn [numbered]. rewrite concat_empty_cons.
  assert (Hsig : sig_text i (opt, t)
                 = entry_text i (opt, t) +:+ String "," EmptyString).
  { unfold sig_text, entry_text. cbn [fst snd].
    rewrite !TextFacts.app_assoc. destruct opt; reflexivity. }
  rewrite Hsig, TextFacts.app_assoc. TextFacts.norm_app.
  rewrite TextMoreFacts.split_on_app.
  - rewrite IH. reflexivity.
  - unfold entry_text. cbn [fst snd].
    rewrite <- TextFacts.app_assoc, SliceFacts.occurs_app.
    rewrite entry_head_no
      by (reflexivity || apply SliceFacts.type_name_no_comma).
    destruct opt; reflexivity.
Qed.

Lemma entry_optional (i : nat) (d : bool * pytype) :
  endswith (entry_text i d) "=None" = d.1.
Proof.
  destruct d as [[|] t]; unfold entry_text; cbn [fst snd].
  - rewrite <- TextFacts.app_assoc. apply SliceFacts.endswith_app.
  - rewrite TextFacts.app_empty_r.
    apply (SliceFacts.endswith_absent "="); [reflexivity|].
    apply entry_head_no; [reflexivity | apply SliceFacts.type_name_no_equal].
Qed.

(** The parameters the generated signature declares are the ones the
    command list describes. *)
Lemma parameters_generated ds (params types : string) :
  parameters
    (mkMethod (String.concat EmptyString (numbered sig_text 0 ds)) params
              types)
  = map fst ds.
Proof.
  unfold parameters. cbn [m_sig].
  rewrite split_signature, removelast_last.
  generalize 0%nat. induction ds as [|d ds IH]; intros i; [reflexivity|].
  cbn [numbered map]. rewrite entry_optional, IH. reflexivity.
Qed.

(** X22. The method generated for a command with exactly one parameter
    cannot be used: its [types] text is a class name between parentheses,
    which is the class and no tuple, so that on a live player the call
    raises [TypeError] whatever is passed, and nothing is written to the
    child. *)
Theorem one_parameter_method_raises (arg name : string)
    (d : bool * pytype) self w (v : value) (prefix : option string) :
  describes arg d ->
  is_alive self = true ->
  name <> EmptyString ->
  exists m,
    _gen_func_sig [arg] = inr m
    /\ m_types m = "(" +:+ type_name d.2 +:+ ")"
    /\ call_method name m self w [v] prefix
       = Some (Raise (TypeError
                 "'type' object has no attribute '__getitem__'"),
               self, w).
Proof.
  intros Hd Halive Hname. apply is_empty_false in Hname.
  eexists. split.
  { apply (gen_func_sig_run [arg] [d]). constructor; [exact Hd | constructor]. }
  split; [reflexivity|].
  unfold call_method. rewrite parameters_generated.
  cbn [m_types map String.concat].
  rewrite eval_types_one.
  destruct d as [[|] t]; cbn; rewrite Halive, Hname; reflexivity.
Qed.

Lemma class_named_type_name (t : pytype) :
  class_named (type_name t) = Some t.
Proof. destruct t; reflexivity. Qed.

Lemma eval_types_tuple (ts : list pytype) :
  length ts <> 1%nat ->
  eval_types ("(" +:+ String.concat "," (map type_name ts) +:+ ")")
  = Some (TypesTuple ts).
Proof.
  intros Hlen. unfold eval_types.
  set (inner := String.concat "," (map type_name ts)).
  assert (Hs : startswith ("(" +:+ inner +:+ ")") "(" = true)
    by apply TextFacts.startswith_app.
  assert (He : endswith ("(" +:+ inner +:+ ")") ")" = true).
  { rewrite <- TextFacts.app_assoc. apply SliceFacts.endswith_app. }
  rewrite Hs, He, SliceFacts.substring_parens. cbn [andb]. subst inner.
  destruct ts as [|t [|u ts]]; [reflexivity | contradiction |].
  assert (Hsplit : split_on ","
                     (String.concat "," (map type_name (t :: u :: ts)))
                   = map type_name (t :: u :: ts)).
  { cbn [map]. apply TextMoreFacts.split_on_join.
    change (Forall (fun y => occurs "," y = false)
              (map type_name (t :: u :: ts))).
    apply Forall_fmap, Forall_forall. intros x _.
    apply SliceFacts.type_name_no_comma. }
  rewrite Hsplit. cbn [map].
  assert (HmapM : mapM class_named (map type_name (t :: u :: ts))
                  = Some (t :: u :: ts)).
  { apply mapM_Some. apply Forall2_fmap_l, Forall_Forall2_diag, Forall_forall.
    intros x _. apply class_named_type_name. }
  cbn [map] in HmapM. rewrite HmapM. reflexivity.
Qed.

Lemma remaining_padded (actuals : list value) (k : nat) :
  remaining (actuals ++ replicate k VNone) = remaining actuals.
Proof.
  unfold remaining. rewrite filter_app.
  assert (Hnone : filter (fun x : value => is_None x = false)
                         (replicate k VNone) = []).
  { induction k as [|k IH]; [reflexivity|]. cbn [replicate].
    rewrite filter_cons_False by (simpl; discriminate). exact IH. }
  rewrite Hnone. apply app_nil_r.
Qed.

(** [_command] sees its arguments only once [None] is discarded. *)
Lemma command_padded self w (name : string) (actuals : list value) (k : nat)
    (types : list pytype) (prefix : option string) :
  _command self w name (actuals ++ replicate k VNone) types prefix
  = _command self w name actuals types prefix.
Proof. unfold _command. rewrite remaining_padded. reflexivity. Qed.

(** X23. The method generated for a command with no parameter, or with
    two or more, of which those with a default come last, binds the
    values it is called with by position to its parameters in order, the
    prefix coming by keyword.  With a value for
    every parameter that has no default, and no more values than
    parameters, it hands [_command] its name, these values, [None] for
    each parameter left out, and the tuple of the parameters' classes.
    With fewer or more values the call raises [TypeError] before
    [_command] is entered, and nothing changes. *)
Theorem generated_method_calls_command (args : list string) ds
    (name : string) self w (actuals : list value) (prefix : option string) :
  Forall2 describes args ds ->
  length args <> 1%nat ->
  defaults_last (map fst ds) = true ->
  let required := length (filter (fun opt => opt = false) (map fst ds)) in
  exists m,
    _gen_func_sig args = inr m
    /\ ((required <= length actuals <= length ds)%nat ->
        call_method name m self w actuals prefix
        = Some (_command self w name
                  (actuals ++ replicate (length ds - length actuals) VNone)
                  (map snd ds) prefix)
        /\ call_method name m self w actuals prefix
           = Some (_command self w name actuals (map snd ds) prefix))
    /\ ((length actuals < required \/ length ds < length actuals)%nat ->
        exists msg,
          call_method name m self w actuals prefix
          = Some (Raise (TypeError msg), self, w)).
Proof.
  intros Hd Hlen Hlast required.
  eexists. split; [apply gen_func_sig_run, Hd|].
  unfold call_method. rewrite parameters_generated, Hlast.
  cbn [negb m_types].
  replace (map (fun d => type_name d.2) ds) with (map type_name (map snd ds))
    by (rewrite map_map; reflexivity).
  rewrite eval_types_tuple.
  2:{ rewrite length_map, <- (Forall2_length _ _ _ Hd). exact Hlen. }
  rewrite length_map. fold required.
  split.
  - intros [Hlo Hhi].
    rewrite (proj2 (Nat.ltb_ge _ _)) by lia.
    rewrite (proj2 (Nat.eqb_neq _ _)) by lia.
    rewrite (proj2 (Nat.ltb_ge _ _)) by lia.
    cbn [_command_kw]. split; [reflexivity|].
    rewrite command_padded. reflexivity.
  - intros Hout.
    destruct (Nat.ltb_spec (length ds + 1) (length actuals));
      [eexists; reflexivity|].
    destruct (Nat.eqb_spec (length actuals) (length ds + 1));
      [eexists; reflexivity|].
    destruct (Nat.ltb_spec (length actuals) required);
      [eexists; reflexivity|].
    lia.
Qed.

End Introspection.

(** ** What the introspection installs *)

Section Installed.

Context {RT : Runtime}.

Variable float_of_text : string -> option float.

Lemma rename_safe (pname : string) :
  rename pname <> "path" /\ rename pname <> "pause".
Proof.
  unfold rename. repeat case_decide; split; congruence.
Qed.

Lemma both_None_spec (pmin pmax : option value) :
  both_None pmin pmax = false <-> pmin <> None \/ pmax <> None.
Proof.
  destruct pmin as [a|], pmax as [b|]; simpl; split; intros H;
    try reflexivity; try discriminate;
    try (left; discriminate); try (right; discriminate).
  destruct H as [H|H]; congruence.
Qed.

Lemma property_line_spec (line attr : string) (p : property) :
  property_line float_of_text line = inr (Some (attr, p)) ->
  attr = rename (prop_name p)
  /\ settable_rule p
  /\ prop_doc p
     = _gen_propdoc (prop_type p) (prop_min p) (prop_max p) (prop_settable p).
Proof.
  unfold property_line.
  destruct (decode line) as [e|text]; [discriminate|].
  destruct (split_words text) as [|first toks]; [discriminate|].
  destruct (negb (islower first)); [discriminate|].
  destruct (unpack (first :: toks)) as [e|[[[pname tname] tmin] tmax]];
    [discriminate|].
  destruct (type_map tname) as [t|]; [|discriminate].
  destruct (bound float_of_text t tmin) as [e|pmin]; [discriminate|].
  destruct (bound float_of_text t tmax) as [e|pmax]; [discriminate|].
  intros [= <- <-]. cbn [prop_name prop_type prop_min prop_max prop_settable
                        prop_doc].
  split; [reflexivity|]. split; [|reflexivity].
  unfold settable_rule. cbn [prop_name prop_min prop_max prop_settable].
  rewrite andb_true_iff, orb_true_iff, !negb_true_iff.
  rewrite both_None_spec, bool_decide_eq_true, bool_decide_eq_false.
  tauto.
Qed.

(** X24. Every property the introspection installs is stored under its
    name after renaming ([pause] as [paused], [path] as [filepath]), and
    has a setter exactly when its name is none of the five read-only names
    and it has a bound or is [sub_delay]; assigning to one without a
    setter is refused.  Nothing is ever installed as [path] or [pause], so
    the path of the executable and the [pause] command are not
    shadowed. *)
Theorem generate_properties_rule (lines : list string)
    (made made' : gmap string property) :
  _generate_properties float_of_text lines made = inr made' ->
  (forall attr p, made' !! attr = Some p ->
     made !! attr = Some p
     \/ (attr = rename (prop_name p) /\ settable_rule p
         /\ (prop_name p ∈ read_only ->
             forall self w val, assign p self w val = None)))
  /\ made' !! "path" = made !! "path"
  /\ made' !! "pause" = made !! "pause".
Proof.
  revert made. induction lines as [|line lines IH]; intros made H.
  - injection H as <-. repeat split. auto.
  - simpl in H.
    destruct (property_line float_of_text line) as [e|[[attr p]|]] eqn:Hline;
      [discriminate | | exact (IH made H)].
    destruct (IH _ H) as (Hall & Hpath & Hpause).
    destruct (property_line_spec line attr p Hline) as (Hattr & Hrule & _).
    destruct (rename_safe (prop_name p)) as [Hne1 Hne2].
    rewrite <- Hattr in Hne1, Hne2.
    split; [|split].
    + intros attr' p' Hin. destruct (Hall attr' p' Hin) as [Hold|Hnew];
        [|right; exact Hnew].
      destruct (decide (attr = attr')) as [<-|Hne].
      * rewrite lookup_insert_eq in Hold. injection Hold as <-.
        right. split; [exact Hattr|]. split; [exact Hrule|].
        intros Hro self w val. unfold assign.
        destruct (prop_settable p) eqn:Hs; [|reflexivity].
        apply Hrule in Hs as [Hnot _]. contradiction.
      * rewrite lookup_insert_ne in Hold by exact Hne. left. exact Hold.
    + rewrite Hpath. apply lookup_insert_ne. exact Hne1.
    + rewrite Hpause. apply lookup_insert_ne. exact Hne2.
Qed.

Lemma acceptable_fixed : acceptable "osd_show_property_text".
Proof.
  unfold acceptable. split; [discriminate|]. split; [reflexivity|].
  split; [discriminate|]. compute_done.
Qed.

Lemma method_line_spec (has : gset string) (line name : string)
    (m : method) :
  method_line has line = inr (Some (name, m)) ->
  acceptable name /\ (name ∉ has \/ name = "osd_show_property_text").
Proof.
  unfold method_line.
  destruct (decode line) as [e|text]; [discriminate|].
  destruct (split_words text) as [|first args]; [discriminate|].
  destruct (startswith first "get_" && negb (startswith first "get_meta"))
    eqn:Hget; [discriminate|].
  destruct (endswith first "_property") eqn:Hprop; [discriminate|].
  case_bool_decide as Hquit; [discriminate|]. cbn [orb].
  case_bool_decide as Hhas; [discriminate|].
  case_bool_decide as Hex; [discriminate|]. cbn [orb].
  destruct (_gen_func_sig args) as [e|m']; [discriminate|].
  destruct (startswith first "osd_show_property_") eqn:Hosd.
  - intros [= <- <-]. split; [apply acceptable_fixed | right; reflexivity].
  - intros [= <- <-]. split; [|left; exact Hhas].
    unfold acceptable. repeat split; try assumption.
    intros Hg. rewrite Hg in Hget. cbn [andb] in Hget.
    apply negb_false_iff in Hget. exact Hget.
Qed.





(** X25. [_generate_methods] only adds: every name [hasattr] answered
    for still answers.  A method it makes is never called [quit], never
    ends in [_property], is no getter other than a [get_meta] one, and is
    none of the ten excluded names.  An attribute that existed before is
    not replaced, with the one exception of [osd_show_property_text], the
    name given to the truncated command. *)
Theorem generate_methods_names (lines : list string)
    (has has' : gset string) (made made' : gmap string method) :
  _generate_methods lines has made = inr (has', made') ->
  has ⊆ has'
  /\ (forall name m, made' !! name = Some m ->
        made !! name = Some m \/ acceptable name)
  /\ (forall name, name ∈ has -> name <> "osd_show_property_text" ->
        made' !! name = made !! name).
Proof.
  revert has made. induction lines as [|line lines IH]; intros has made H.
  - injection H as <- <-. split; [reflexivity|]. split; auto.
  - simpl in H.
    destruct (method_line has line) as [e|[[name m]|]] eqn:Hline;
      [discriminate | | exact (IH has made H)].
    destruct (IH _ _ H) as (Hsub & Hall & Hkeep).
    destruct (method_line_spec has line name m Hline) as [Hacc Hfresh].
    split; [etrans; [apply union_subseteq_r | exact Hsub]|]. split.
    + intros name' m' Hin. destruct (Hall name' m' Hin) as [Hold|Hnew];
        [|right; exact Hnew].
      destruct (decide (name = name')) as [<-|Hne].
      * right. exact Hacc.
      * rewrite lookup_insert_ne in Hold by exact Hne. left. exact Hold.
    + intros name' Hin Hnot.
      rewrite Hkeep by (exact Hnot || (apply elem_of_union; right; exact Hin)).
      apply lookup_insert_ne. intros ->.
      destruct Hfresh as [Hfresh|Hfresh]; contradiction.
Qed.

End Installed.

(** ** The further theorems at work on the sample data *)

Section MoreInstances.

Import Sample Fixture.

Lemma hook_unhook_roundtrip_witness :
  (7%nat ∉ _subscribers broadcaster)
  /\ unhook (hook broadcaster (Callable 7%nat)).2 (Callable 7%nat)
     = (true, broadcaster).
Proof.
  assert (H : 7%nat ∉ _subscribers broadcaster) by compute_done.
  split; [exact H|]. apply (hook_unhook_roundtrip broadcaster 7%nat H).
Defined.

Lemma rehook_moves_last_witness :
  NoDup (_subscribers broadcaster)
  /\ _subscribers (hook (unhook broadcaster (Callable 3%nat)).2
                        (Callable 3%nat)).2
     = [4%nat; 3%nat].
Proof.
  assert (Hnd : NoDup (_subscribers broadcaster)) by compute_done.
  assert (Hin : 3%nat ∈ _subscribers broadcaster) by compute_done.
  split; [exact Hnd|].
  destruct (rehook_moves_last broadcaster 3%nat Hnd Hin) as [H _].
  rewrite H. reflexivity.
Defined.

Lemma pump_delivers_witness :
  _lock broadcaster = false
  /\ (pump 3 broadcaster world).1 = Return tt
  /\ calls (pump 3 broadcaster world).2
     = [(3%nat, "Starting playback..."); (4%nat, "Starting playback...");
        (3%nat, "ANS_volume='50'"); (4%nat, "ANS_volume='50'")]
  /\ (pump 3 broadcaster garbled).1 = Raise (UnicodeDecodeError latin1 11)
  /\ calls (pump 3 broadcaster garbled).2 = [].
Proof.
  split; [reflexivity|].
  destruct (pump_delivers 3 broadcaster world 1%nat
              ["Starting playback...  " +:+ NL; "ANS_volume='50'" +:+ NL;
               "   " +:+ NL; "ANS_ERROR=PROPERTY_UNKNOWN" +:+ NL]
              eq_refl eq_refl eq_refl) as [Hok _].
  destruct (pump_delivers 3 broadcaster garbled 1%nat
              [latin1; "ANS_volume='50'" +:+ NL;
               "ANS_ERROR=PROPERTY_UNKNOWN" +:+ NL]
              eq_refl eq_refl eq_refl) as [_ Hbad].
  rewrite Hok by (repeat constructor).
  rewrite (Hbad [] latin1
             ["ANS_volume='50'" +:+ NL; "ANS_ERROR=PROPERTY_UNKNOWN" +:+ NL]
             eq_refl);
    [| constructor | reflexivity | simpl; lia].
  repeat split.
Defined.

Lemma getter_without_pipe_witness :
  is_alive unpiped = true
  /\ _command unpiped world "get_property" [VStr "volume"] [] None
     = (Return None, unpiped, world).
Proof.
  split; [reflexivity|].
  pose proof (getter_without_pipe unpiped world "get_property"
                [VStr "volume"] [] None eq_refl eq_refl eq_refl eq_refl) as H.
  cbv zeta in H. destruct H as [H _]. exact (H eq_refl).
Defined.


Lemma command_too_many_arguments_witness :
  is_alive player = true
  /\ _command player world "seek" [VInt 1; VInt 2] [Tint] None
     = (Raise (TypeError
          "isinstance() arg 2 must be a class, type, or tuple of classes and types"),
        player, world).
Proof.
  split; [reflexivity|].
  apply (command_too_many_arguments player world "seek" [VInt 1; VInt 2]
           [Tint] None); [reflexivity | discriminate | discriminate |].
  simpl. lia.
Defined.

Lemma command_frame_witness :
  _args (_command player world "get_property" [VStr "volume"] [] None).1.2
  = _args player
  /\ calls (_command player world "get_property" [VStr "volume"] [] None).2
     = [].
Proof.
  destruct (command_frame player world "get_property" [VStr "volume"] []
              None) as (Ha & _ & _ & _ & _ & _ & _ & _ & Hc & _).
  split; [exact Ha | exact Hc].
Defined.






Lemma metadata_pairs_witness :
  metadata "title,Song,artist,Me,year" !! "artist" = Some "Me"
  /\ metadata "title,Song,artist,Me,year" !! "year" = None.
Proof.
  assert (Hp : Forall (fun kv : string * string =>
                         occurs "," kv.1 = false /\ occurs "," kv.2 = false)
                 [("title", "Song"); ("artist", "Me")]).
  { repeat constructor. }
  assert (Ht : Forall (fun k => occurs "," k = false) ["year"]).
  { repeat constructor. }
  assert (Hl : (length ["year"] <= 1)%nat) by (simpl; lia).
  destruct (metadata_pairs [("title", "Song"); ("artist", "Me")] ["year"]
              Hp Ht Hl) as (Hm & _ & Hnone & Hsome).
  change (metadata "title,Song,artist,Me,year")
    with (metadata (String.concat ","
            (flat_map (fun kv : string * string => [kv.1; kv.2])
               [("title", "Song"); ("artist", "Me")] ++ ["year"]))).
  rewrite Hm. split.
  - apply Hsome; compute_done.
  - apply Hnone. compute_done.
Defined.

Lemma propget_int_roundtrip_witness :
  is_alive player = true
  /\ _propget float_of_text player answering "volume" Tint
     = (Return (Some (VInt 42)),
        stdin_write player
          ("pausing_keep_force get_property volume " +:+ NL),
        mkWorld (<[1%nat := []]> (files answering)) (calls answering)).
Proof.
  split; [reflexivity|].
  pose proof (propget_int_roundtrip float_of_text player answering "volume"
                1%nat ["ANS_pause=yes" +:+ NL] [] 42 " "
                eq_refl eq_refl eq_refl eq_refl eq_refl eq_refl) as H.
  cbv zeta in H. apply H; try reflexivity; repeat constructor.
Defined.

Lemma quit_stops_the_child_witness :
  is_alive player = true
  /\ sent (quit player world (VInt 0) (Some 0)).1.2 = ["quit 0 " +:+ NL]
  /\ is_alive (quit player world (VInt 0) (Some 0)).1.2 = false.
Proof.
  split; [reflexivity|].
  destruct (quit_stops_the_child player world (VInt 0) 0 eq_refl eq_refl)
    as (_ & Hs & Hd & _).
  split; [rewrite Hs; reflexivity | exact Hd].
Defined.

Lemma after_quit_inert_witness :
  is_alive player = true
  /\ publish (_stdout (quit player world (VInt 0) (Some 0)).1.2) world
     = (Return true, world).
Proof.
  split; [reflexivity|].
  destruct (after_quit_inert player world (VInt 0) 0 eq_refl eq_refl world)
    as (H & _).
  exact H.
Defined.

Lemma restart_keeps_subscribers_witness :
  is_alive player = true
  /\ exists again,
      spawn "mplayer" popen (quit player world (VInt 0) (Some 0)).1.2
      = inr again
      /\ _subscribers (_stdout again) = [3%nat; 4%nat].
Proof.
  split; [reflexivity|].
  destruct (restart_keeps_subscribers player world (VInt 0) 0 "mplayer" popen
              (mkPopen None [] (Some 2%nat) None) 2%nat
              eq_refl eq_refl eq_refl eq_refl eq_refl)
    as (again & Hs & Hsub & _).
  exists again. split; [exact Hs | exact Hsub].
Defined.

Lemma init_without_autospawn_witness :
  Player_init "pausing_keep_force" "mplayer" popen (ArgsStr "-fs -vo null")
              false
  = inr (mkPlayer "pausing_keep_force"
           (fixed_args ++ ["-fs"; "-vo"; "null"]) FileWrapper_init
           FileWrapper_init None)
  /\ is_alive (mkPlayer "pausing_keep_force"
                 (fixed_args ++ ["-fs"; "-vo"; "null"]) FileWrapper_init
                 FileWrapper_init None) = false.
Proof.
  assert (H : Player_init "pausing_keep_force" "mplayer" popen
                (ArgsStr "-fs -vo null") false
              = inr (mkPlayer "pausing_keep_force"
                       (fixed_args ++ ["-fs"; "-vo"; "null"]) FileWrapper_init
                       FileWrapper_init None)) by reflexivity.
  split; [exact H|].
  destruct (init_without_autospawn _ _ _ _ _ H) as (Hd & _). exact Hd.
Defined.

Lemma args_extend_appends_witness :
  args (args_extend player [VStr "-wid"; VInt 42]).2 = ["-wid"; "42"].
Proof.
  destruct (args_extend_appends player [VStr "-wid"; VInt 42])
    as (_ & H & _).
  rewrite H. reflexivity.
Defined.

Lemma gen_func_sig_texts_witness :
  Forall2 describes ["Float"; "[Integer]"] [(false, Tfloat); (true, Tint)]
  /\ _gen_func_sig ["Float"; "[Integer]"]
     = inr (mkMethod "float0,int1=None," "float0,int1," "(float,int)").
Proof.
  assert (Hd : Forall2 describes ["Float"; "[Integer]"]
                 [(false, Tfloat); (true, Tint)]).
  { repeat constructor. }
  split; [exact Hd|].
  destruct (gen_func_sig_texts ["Float"; "[Integer]"]
              [(false, Tfloat); (true, Tint)] Hd) as (m & Hm & Hs & Hp & Ht).
  rewrite Hm. destruct m as [sg pr ty]. cbn [m_sig m_params m_types] in *.
  rewrite Hs, Hp, Ht. reflexivity.
Defined.

Lemma one_parameter_method_raises_witness :
  describes "Float" (false, Tfloat)
  /\ exists m,
      _gen_func_sig ["Float"] = inr m
      /\ m_types m = "(float)"
      /\ call_method "speed_set" m player world [@VFloat runtime 2] None
         = Some (Raise (TypeError
                   "'type' object has no attribute '__getitem__'"),
                 player, world).
Proof.
  assert (Hd : describes "Float" (false, Tfloat)) by (split; reflexivity).
  split; [exact Hd|].
  apply (one_parameter_method_raises "Float" "speed_set" (false, Tfloat)
           player world (@VFloat runtime 2) None Hd); [reflexivity | discriminate].
Defined.

Lemma generated_method_calls_command_witness :
  Forall2 describes ["Float"; "[Integer]"] [(false, Tfloat); (true, Tint)]
  /\ exists m,
      _gen_func_sig ["Float"; "[Integer]"] = inr m
      /\ call_method "seek" m player world [@VFloat runtime 5] None
         = Some (_command player world "seek" [@VFloat runtime 5; VNone]
                          [Tfloat; Tint] None)
      /\ exists msg,
          call_method "seek" m player world [] None
          = Some (Raise (TypeError msg), player, world).
Proof.
  assert (Hd : Forall2 describes ["Float"; "[Integer]"]
                 [(false, Tfloat); (true, Tint)]).
  { repeat constructor. }
  split; [exact Hd|].
  assert (Hlen : length ["Float"; "[Integer]"] <> 1%nat) by discriminate.
  pose proof (generated_method_calls_command ["Float"; "[Integer]"]
                [(false, Tfloat); (true, Tint)] "seek" player world
                [@VFloat runtime 5] None Hd Hlen eq_refl) as Hone.
  pose proof (generated_method_calls_command ["Float"; "[Integer]"]
                [(false, Tfloat); (true, Tint)] "seek" player world
                [] None Hd Hlen eq_refl) as Hnone.
  cbv zeta in Hone, Hnone.
  destruct Hone as (m & Hm & Hok & _).
  destruct Hnone as (m' & Hm' & _ & Hbad).
  assert (Heq : m' = m) by congruence. subst m'.
  exists m. split; [exact Hm|]. split.
  - destruct Hok as [Hcall _]; [simpl; lia|]. exact Hcall.
  - apply Hbad. left. simpl. lia.
Defined.

Lemma generate_properties_rule_witness :
  exists made,
    _generate_properties float_of_text property_lines ∅ = inr made
    /\ made !! "path" = None
    /\ made !! "pause" = None.
Proof.
  assert (Hrun : exists made,
             _generate_properties float_of_text property_lines ∅ = inr made).
  { eexists. reflexivity. }
  destruct Hrun as [made H]. exists made. split; [exact H|].
  destruct (generate_properties_rule float_of_text property_lines ∅ made H)
    as (_ & Hpath & Hpause).
  split; [rewrite Hpath | rewrite Hpause]; reflexivity.
Defined.


Lemma generate_methods_names_witness :
  exists has made,
    _generate_methods command_lines {["quit"; "spawn"]} ∅ = inr (has, made)
    /\ made !! "quit" = None
    /\ "spawn" ∈ has.
Proof.
  assert (Hrun : exists has made,
             _generate_methods command_lines {["quit"; "spawn"]} ∅
             = inr (has, made)).
  { eexists _, _. reflexivity. }
  destruct Hrun as (has & made & H). exists has, made. split; [exact H|].
  destruct (generate_methods_names command_lines {["quit"; "spawn"]} has ∅
              made H) as (Hsub & _ & Hkeep).
  split.
  - rewrite Hkeep; [reflexivity | compute_done | discriminate].
  - apply Hsub. compute_done.
Defined.

End MoreInstances.
